(** * Block-translate template tags of privex-adminplus: model and properties

    Shallow embedding of
    [privex/adminplus/backports/templatetags/blocktranslate.py]:
    the [blocktranslate] directive parser ([do_block_translate]) and the
    renderers [TranslateNode.render], [BlockTranslateNode.render] and
    [LanguageNode.render].

    Conventions.
    - Python [str] is [string]; characters are ASCII (a byte above 127 is
      neither a word character nor white space).
    - A Python exception is a value of [exn]; code that may raise returns
      [Res].  Rendering threads the mutable template context, the active
      translation language and a trace of the calls made on the context and
      on the translation catalog through a state monad [M].
    - What the host framework supplies (filter expressions, the translation
      catalog, [render_value_in_context], [repr]) is an interface: the
      classes [TemplateEngine], [Catalog] and [PyText].  The framework
      helpers whose behaviour the tag depends on ([token_kwargs],
      [Context.update]/[pop]/[__setitem__], [translation.override], the
      [%] operator of [str]) are written out. *)

From Stdlib Require Import Ascii String NArith ZArith Lia Bool List.
From stdpp Require Import base option list gmap strings pretty.

Local Open Scope string_scope.
Local Open Scope list_scope.

(** ** Python strings *)

Module PyStr.

Definition percent : ascii := "%"%char.
Definition newline : ascii := "010"%char.

(** [c in string.whitespace] for an ASCII [str]: tab, line feed, vertical
    tab, form feed, carriage return, the four separators 0x1c-0x1f and
    space. *)
Definition is_space (c : ascii) : bool :=
  let n := nat_of_ascii c in
  (((9 <=? n) && (n <=? 13)) || ((28 <=? n) && (n <=? 32)))%nat.

Definition is_digit (c : ascii) : bool :=
  let n := nat_of_ascii c in ((48 <=? n) && (n <=? 57))%nat.

(** The regular expression class [\w] on ASCII. *)
Definition is_word (c : ascii) : bool :=
  let n := nat_of_ascii c in
  is_digit c
  || (((65 <=? n) && (n <=? 90)) || ((97 <=? n) && (n <=? 122)) || (n =? 95))%nat.

Fixpoint lstrip (s : string) : string :=
  match s with
  | String c s' => if is_space c then lstrip s' else s
  | EmptyString => EmptyString
  end.

Fixpoint rstrip (s : string) : string :=
  match s with
  | String c s' =>
      match rstrip s' with
      | EmptyString => if is_space c then EmptyString else String c EmptyString
      | r => String c r
      end
  | EmptyString => EmptyString
  end.

(** [s.strip()] *)
Definition strip (s : string) : string := rstrip (lstrip s).

(** [sub in s] *)
Fixpoint contains (sub s : string) : bool :=
  String.prefix sub s ||
  match s with
  | String _ s' => contains sub s'
  | EmptyString => false
  end.

(** [s.replace(old, new)] for a non-empty [old]: occurrences are found
    from the left and do not overlap.  [skip] counts the characters of
    the occurrence just replaced that are still to be dropped. *)
Fixpoint replace_from (old new : string) (skip : nat) (s : string) : string :=
  match s with
  | EmptyString => EmptyString
  | String c s' =>
      match skip with
      | S k => replace_from old new k s'
      | O =>
          if String.prefix old s
          then new ++ replace_from old new (String.length old - 1) s'
          else String c (replace_from old new 0 s')
      end
  end.

Definition replace (old new s : string) : string := replace_from old new 0 s.

(** [''.join(parts)] *)
Definition join (parts : list string) : string :=
  fold_right String.append EmptyString parts.

Definition spaces (n : nat) : string :=
  string_of_list_ascii (List.repeat " "%char n).

(** [s[:n]] *)
Fixpoint take (n : nat) (s : string) : string :=
  match n, s with
  | S k, String c s' => String c (take k s')
  | _, _ => EmptyString
  end.

End PyStr.

(** ** Python dictionaries

    A [dict] keeps its keys in insertion order; assigning to a key that is
    already there replaces the value and keeps the position. *)

Module PyDict.

Definition dict (V : Type) : Type := list (string * V).

Fixpoint dict_get {V} (d : dict V) (k : string) : option V :=
  match d with
  | [] => None
  | (k', v) :: d' => if String.eqb k' k then Some v else dict_get d' k
  end.

(** [d[k] = v] *)
Fixpoint dict_set {V} (k : string) (v : V) (d : dict V) : dict V :=
  match d with
  | [] => [(k, v)]
  | (k', v') :: d' =>
      if String.eqb k' k then (k, v) :: d' else (k', v') :: dict_set k v d'
  end.

End PyDict.

(** ** The [%] operator of [str]

    [fmt % args] where [args] is a [dict] whose values are [str], or a single
    [str].  The format is read from left to right as CPython does, one
    conversion specifier at a time: [%%], or [%] followed by an optional
    [(key)], flags, width, precision, a length modifier and the conversion
    character. *)

Module PyFormat.
Import PyStr PyDict.

Inductive fmt_arg :=
| ArgStr (s : string)
| ArgDict (d : dict string).

Inductive fmt_result :=
| FmtOk (s : string)
| FmtKeyError (key : string)
| FmtValueError
| FmtTypeError.

(** [str(x)], [repr(x)] and [ascii(x)], selected by the conversion character
    ([s], [r], [a]).  [str] of a [str] is the string itself and is not asked
    of this interface. *)
Class PyText := text_of : ascii -> fmt_arg -> string.

Record fmt_spec := {
  ljust : bool;
  width : option N;
  prec : option N
}.

Definition no_spec : fmt_spec := {| ljust := false; width := None; prec := None |}.

(** The bounds of the field width ([Py_ssize_t]) and of the precision
    ([int]). *)
Definition PY_SSIZE_T_MAX : N := 2 ^ 63 - 1.

Definition INT_MAX : N := 2 ^ 31 - 1.

(** [mapping] is the dictionary when the right operand is one; [next_arg] is
    the argument the next conversion consumes, [None] once it is used up. *)
Record cursor := {
  mapping : option (dict string);
  next_arg : option fmt_arg
}.

Inductive stage :=
| Literal
| Start
| InKey (depth : nat) (key : string)
| Flags (sp : fmt_spec)
| Width (sp : fmt_spec) (w : N)
| PrecStart (sp : fmt_spec)
| Prec (sp : fmt_spec) (p : N)
| Conv (sp : fmt_spec).

Inductive action :=
| Goto (st : stage) (cur : cursor)
| Emit (text : string) (cur : cursor)
| Fail (e : fmt_result).

Definition digit_value (c : ascii) : N := N_of_ascii c - 48.

Definition one_of (chars : string) (c : ascii) : bool :=
  existsb (Ascii.eqb c) (list_ascii_of_string chars).

Definition pad (sp : fmt_spec) (text : string) : string :=
  match width sp with
  | Some w =>
      let fill := spaces (N.to_nat w - String.length text) in
      if ljust sp then text ++ fill else fill ++ text
  | None => text
  end.

Definition truncate (sp : fmt_spec) (text : string) : string :=
  match prec sp with
  | Some p => take (N.to_nat p) text
  | None => text
  end.

Section Conversions.
Context {py : PyText}.

Definition convert (sp : fmt_spec) (cur : cursor) (c : ascii) : action :=
  match next_arg cur with
  | None => Fail FmtTypeError
  | Some v =>
      let cur' := {| mapping := mapping cur; next_arg := None |} in
      if one_of "sra" c then
        let text := match c, v with
                    | "s"%char, ArgStr s => s
                    | _, _ => text_of c v
                    end in
        Emit (pad sp (truncate sp text)) cur'
      else if one_of "diouxXeEfFgG" c then Fail FmtTypeError
      else if Ascii.eqb c "c" then
        match v with
        | ArgStr (String ch EmptyString) => Emit (pad sp (String ch EmptyString)) cur'
        | _ => Fail FmtTypeError
        end
      else Fail FmtValueError
  end.

Definition after_prec (sp : fmt_spec) (cur : cursor) (c : ascii) : action :=
  if one_of "hlL" c then Goto (Conv sp) cur else convert sp cur c.

(** One more digit of a width or of a precision: "width too big" and
    "precision too big" past the bound. *)
Definition grow (bound : N) (n : N) (c : ascii) : option N :=
  if (((bound - digit_value c) / 10) <? n)%N then None
  else Some (n * 10 + digit_value c)%N.

Definition after_width (sp : fmt_spec) (cur : cursor) (c : ascii) : action :=
  if Ascii.eqb c "." then Goto (PrecStart sp) cur else after_prec sp cur c.

Definition with_width (sp : fmt_spec) (w : N) : fmt_spec :=
  {| ljust := ljust sp; width := Some w; prec := prec sp |}.

Definition with_prec (sp : fmt_spec) (p : N) : fmt_spec :=
  {| ljust := ljust sp; width := width sp; prec := Some p |}.

Definition step (st : stage) (cur : cursor) (c : ascii) : action :=
  match st with
  | Literal =>
      if Ascii.eqb c percent then Goto Start cur
      else Emit (String c EmptyString) cur
  | Start =>
      if Ascii.eqb c percent then Emit "%" cur
      else if Ascii.eqb c "(" then
        match mapping cur with
        | None => Fail FmtTypeError
        | Some _ => Goto (InKey 1 EmptyString) cur
        end
      else if one_of "-+ #0" c then
        Goto (Flags {| ljust := Ascii.eqb c "-"; width := None; prec := None |}) cur
      else if Ascii.eqb c "*" then Fail FmtTypeError
      else if is_digit c then Goto (Width no_spec (digit_value c)) cur
      else after_width no_spec cur c
  | InKey depth key =>
      if Ascii.eqb c ")" then
        match depth with
        | 1 =>
            match mapping cur with
            | None => Fail FmtTypeError
            | Some d =>
                match dict_get d key with
                | None => Fail (FmtKeyError key)
                | Some v =>
                    Goto (Flags no_spec)
                         {| mapping := mapping cur; next_arg := Some (ArgStr v) |}
                end
            end
        | _ => Goto (InKey (depth - 1) (key ++ String c EmptyString)) cur
        end
      else if Ascii.eqb c "(" then
        Goto (InKey (S depth) (key ++ String c EmptyString)) cur
      else Goto (InKey depth (key ++ String c EmptyString)) cur
  | Flags sp =>
      if one_of "-+ #0" c then
        Goto (Flags {| ljust := ljust sp || Ascii.eqb c "-";
                       width := width sp; prec := prec sp |}) cur
      else if Ascii.eqb c "*" then Fail FmtTypeError
      else if is_digit c then Goto (Width sp (digit_value c)) cur
      else after_width sp cur c
  | Width sp w =>
      if is_digit c then
        match grow PY_SSIZE_T_MAX w c with
        | Some w' => Goto (Width sp w') cur
        | None => Fail FmtValueError
        end
      else after_width (with_width sp w) cur c
  | PrecStart sp =>
      if Ascii.eqb c "*" then Fail FmtTypeError
      else if is_digit c then Goto (Prec sp (digit_value c)) cur
      else after_prec (with_prec sp 0) cur c
  | Prec sp p =>
      if is_digit c then
        match grow INT_MAX p c with
        | Some p' => Goto (Prec sp p') cur
        | None => Fail FmtValueError
        end
      else after_prec (with_prec sp p) cur c
  | Conv sp => convert sp cur c
  end.

Definition fmt_app (text : string) (r : fmt_result) : fmt_result :=
  match r with
  | FmtOk s => FmtOk (text ++ s)
  | e => e
  end.

(** At the end of the format a specifier left open is a [ValueError]; a
    single (non-mapping) argument that no conversion consumed is a
    [TypeError]. *)
Fixpoint run (st : stage) (cur : cursor) (fmt : string) : fmt_result :=
  match fmt with
  | EmptyString =>
      match st with
      | Literal =>
          match mapping cur, next_arg cur with
          | None, Some _ => FmtTypeError
          | _, _ => FmtOk EmptyString
          end
      | _ => FmtValueError
      end
  | String c fmt' =>
      match step st cur c with
      | Goto st' cur' => run st' cur' fmt'
      | Emit text cur' => fmt_app text (run Literal cur' fmt')
      | Fail e => e
      end
  end.

(** [fmt % args] *)
Definition py_format (fmt : string) (args : fmt_arg) : fmt_result :=
  run Literal
      {| mapping := match args with ArgDict d => Some d | ArgStr _ => None end;
         next_arg := Some args |}
      fmt.

End Conversions.

End PyFormat.

(** ** Values, exceptions and the template context *)

Module Django.
Import PyStr PyDict PyFormat.

(** Python objects that reach the tags: [None], integers, [str] and
    [SafeString] (a [str] marked as safe for output). *)
Inductive value :=
| VNone
| VInt (n : Z)
| VStr (s : string)
| VSafe (s : string).

(** [bool(v)] *)
Definition truthy (v : value) : bool :=
  match v with
  | VNone => false
  | VInt n => negb (n =? 0)%Z
  | VStr s | VSafe s => negb (String.eqb s EmptyString)
  end.

(** A rendered [str] and whether it is [SafeData]. *)
Record text := { chars : string; is_safe : bool }.

Definition value_of_text (t : text) : value :=
  if is_safe t then VSafe (chars t) else VStr (chars t).

(** The message of a [TemplateSyntaxError], one constructor per message of
    the module, with the values substituted into it. *)
Inductive syntax_message :=
| OptionTwice (option : string)
| WithNeedsKeyword (tag : string)
| CountExpectsOne (tag : string)
| ContextExpectsOne (tag : string)
| NoAsvarArgument (tag : string)
| UnknownArgument (tag option : string)
| OtherBlockTags (tag : string)
| OtherBlockTagsSeen (tag seen : string)
| UnableToFormat (tag result : string) (data : dict string)
| FilterSyntax (expression : string).

Inductive exn :=
| TemplateSyntaxError (m : syntax_message)
| KeyError (key : string)
| ValueError
| TypeError
| IndexError
| AttributeError
| StopIteration
| ContextPopException
| Raised (name : string).

Inductive Res (A : Type) :=
| Ok (a : A)
| Raise (e : exn).
Arguments Ok {A} a.
Arguments Raise {A} e.

#[global] Instance Res_ret : MRet Res := fun A a => Ok a.
#[global] Instance Res_bind : MBind Res := fun A B f m =>
  match m with
  | Ok a => f a
  | Raise e => Raise e
  end.

(** [Context]: the stack of scopes [dicts] (the head of the list is the top
    of the stack, Python's [dicts[-1]]) and the engine's
    [string_if_invalid]. *)
Record Context := {
  dicts : list (gmap string value);
  string_if_invalid : string
}.

(** [key in context] *)
Definition context_contains (c : Context) (key : string) : bool :=
  existsb (fun d => bool_decide (is_Some (d !! key))) (dicts c).

(** [context[key]]: the innermost scope that has the key. *)
Fixpoint stack_get (ds : list (gmap string value)) (key : string) : option value :=
  match ds with
  | [] => None
  | d :: ds' =>
      match d !! key with
      | Some v => Some v
      | None => stack_get ds' key
      end
  end.

Definition context_get (c : Context) (key : string) : Res value :=
  match stack_get (dicts c) key with
  | Some v => Ok v
  | None => Raise (KeyError key)
  end.

(** Calls on the translation catalog. *)
Inductive catalog_call :=
| Gettext (message : string)
| Ngettext (singular plural : string) (number : value)
| Pgettext (context : value) (message : string)
| Npgettext (context : value) (singular plural : string) (number : value).

(** What a render does to the context and to the translation machinery, in
    the order it does it. *)
Inductive event :=
| Update (scope : gmap string value)
| SetItem (key : string) (v : value)
| Pop
| Lookup (language : option string) (call : catalog_call)
| OverrideEnter (language : option string)
| OverrideExit (restored : option string).

(** The state a render runs in: the context it was handed, the active
    translation language as [get_language()] reports it ([None] after
    [deactivate_all()]) and the trace of events so far. *)
Record World := {
  context : Context;
  active : option string;
  trace : list event
}.

Definition M (A : Type) : Type := World -> Res A * World.

#[global] Instance M_ret : MRet M := fun A a w => (Ok a, w).
#[global] Instance M_bind : MBind M := fun A B f m w =>
  match m w with
  | (Ok a, w') => f a w'
  | (Raise e, w') => (Raise e, w')
  end.

Definition raise {A} (e : exn) : M A := fun w => (Raise e, w).

Definition lift {A} (r : Res A) : M A := fun w => (r, w).

Definition get_context : M Context := fun w => (Ok (context w), w).

Definition emit (e : event) : M unit := fun w =>
  (Ok tt, {| context := context w; active := active w; trace := trace w ++ [e] |}).

Definition set_dicts (ds : list (gmap string value)) : M unit := fun w =>
  (Ok tt, {| context := {| dicts := ds; string_if_invalid := string_if_invalid (context w) |};
             active := active w; trace := trace w |}).

(** [context.update(scope)]: push [scope]. *)
Definition context_update (scope : gmap string value) : M unit :=
  c ← get_context;
  _ ← emit (Update scope);
  set_dicts (scope :: dicts c).

(** [context[key] = v]: assign in the top scope. *)
Definition context_setitem (key : string) (v : value) : M unit :=
  c ← get_context;
  match dicts c with
  | [] => raise IndexError
  | d :: ds => _ ← emit (SetItem key v); set_dicts (<[key := v]> d :: ds)
  end.

(** [context.pop()]: the bottom scope is never popped. *)
Definition context_pop : M unit :=
  c ← get_context;
  match dicts c with
  | _ :: d :: ds => _ ← emit Pop; set_dicts (d :: ds)
  | _ => raise ContextPopException
  end.

(** ** The translation machinery *)

Definition get_language : M (option string) := fun w => (Ok (active w), w).

(** [with translation.override(language): body].  On entry the current
    language is remembered and [language] activated ([deactivate_all()] for
    [None]); on exit, normal or by an exception of [body], the remembered
    language is activated again and the exception, if any, continues. *)
Definition enter_override (language : option string) (w : World) : World :=
  {| context := context w; active := language;
     trace := trace w ++ [OverrideEnter language] |}.

Definition exit_override (old_language : option string) (w : World) : World :=
  {| context := context w; active := old_language;
     trace := trace w ++ [OverrideExit old_language] |}.

Definition with_override {A} (language : option string) (body : M A) : M A :=
  fun w =>
    let old_language := active w in
    let '(r, w') := body (enter_override language w) in
    (r, exit_override old_language w').

(** The catalog of the host framework.  Every lookup sees the active
    language; a lookup may raise (a plural rule applied to a count that is
    not a number). *)
Class Catalog := {
  gettext : option string -> string -> Res string;
  ngettext : option string -> string -> string -> value -> Res string;
  pgettext : option string -> value -> string -> Res string;
  npgettext : option string -> value -> string -> string -> value -> Res string;
  trim_whitespace : string -> string
}.

(** The template engine of the host framework: compiled filter expressions.
    [resolve_translated] is [FilterExpression.resolve] for the expression of
    a [translate] tag, whose variable carries the [translate] flag and the
    message context and looks the literal up in the catalog itself. *)
Class TemplateEngine := {
  Expr : Type;
  compile_filter : string -> Res Expr;
  resolve : Expr -> Context -> Res value;
  resolve_translated : Expr -> bool -> option value -> Context -> option string -> Res value;
  render_value_in_context : value -> Context -> text
}.

Section Tags.
Context {catalog : Catalog} {engine : TemplateEngine} {py : PyText}.

Definition call_catalog (call : catalog_call) : M string :=
  language ← get_language;
  _ ← emit (Lookup language call);
  lift match call with
       | Gettext m => gettext language m
       | Ngettext s p n => ngettext language s p n
       | Pgettext c m => pgettext language c m
       | Npgettext c s p n => npgettext language c s p n
       end.

(** [expression.resolve(context)] *)
Definition resolve_in_context (e : Expr) : M value :=
  c ← get_context; lift (resolve e c).

(** ** Tokens and [token_kwargs] *)

Inductive TokenType := TEXT | VAR | BLOCK | COMMENT.

Record Token := { token_type : TokenType; contents : string }.

(** [token.token_type in (TokenType.VAR, TokenType.TEXT)] *)
Definition is_body_token (t : Token) : bool :=
  match token_type t with
  | VAR | TEXT => true
  | BLOCK | COMMENT => false
  end.

(** The longest prefix of word characters, and the rest. *)
Fixpoint span_word (s : string) : string * string :=
  match s with
  | String c s' =>
      if is_word c then let '(w, r) := span_word s' in (String c w, r)
      else (EmptyString, s)
  | EmptyString => (EmptyString, EmptyString)
  end.

(** What [.+] matches: the characters before the first line feed. *)
Fixpoint line_prefix (s : string) : string :=
  match s with
  | String c s' => if Ascii.eqb c newline then EmptyString else String c (line_prefix s')
  | EmptyString => EmptyString
  end.

(** [kwarg_re.match(bit)] for [kwarg_re = (?:(\w+)=)?(.+)]: [None] when
    there is no match, otherwise groups 1 and 2. *)
Definition kwarg_re_match (bit : string) : option (option string * string) :=
  let whole := match bit with
               | String c _ =>
                   if Ascii.eqb c newline then None else Some (None, line_prefix bit)
               | EmptyString => None
               end in
  match span_word bit with
  | (String c w, String "="%char (String d v)) =>
      if Ascii.eqb d newline then whole
      else Some (Some (String c w), line_prefix (String d v))
  | _ => whole
  end.

(** [match and match.group(1)] as a truth value. *)
Definition kwarg_format (bit : string) : bool :=
  match kwarg_re_match bit with
  | Some (Some _, _) => true
  | _ => false
  end.

(** The loop of [token_kwargs] in the [key=value] format. *)
Fixpoint token_kwargs_keyword (bits : list string) (kwargs : dict Expr)
  : Res (dict Expr * list string) :=
  match bits with
  | [] => Ok (kwargs, [])
  | bit :: rest =>
      match kwarg_re_match bit with
      | Some (Some key, v) =>
          e ← compile_filter v;
          token_kwargs_keyword rest (dict_set key e kwargs)
      | _ => Ok (kwargs, bits)
      end
  end.

(** The loop of [token_kwargs] in the legacy format [value as key and ...]. *)
Fixpoint token_kwargs_legacy (bits : list string) (kwargs : dict Expr)
  : Res (dict Expr * list string) :=
  match bits with
  | v :: kw_as :: key :: rest =>
      if String.eqb kw_as "as" then
        match compile_filter v with
        | Raise e => Raise e
        | Ok e =>
            let kwargs' := dict_set key e kwargs in
            match rest with
            | [] => Ok (kwargs', [])
            | kw_and :: rest' =>
                if String.eqb kw_and "and" then token_kwargs_legacy rest' kwargs'
                else Ok (kwargs', rest)
            end
        end
      else Ok (kwargs, bits)
  | _ => Ok (kwargs, bits)
  end.

(** [token_kwargs(bits, parser, support_legacy)]: the keyword arguments at
    the front of [bits], and the bits left over (the framework removes the
    consumed bits from the list in place). *)
Definition token_kwargs (bits : list string) (support_legacy : bool)
  : Res (dict Expr * list string) :=
  match bits with
  | [] => Ok ([], [])
  | bit :: _ =>
      if kwarg_format bit then token_kwargs_keyword bits []
      else if negb support_legacy then Ok ([], bits)
      else
        match bits with
        | _ :: kw_as :: _ :: _ =>
            if String.eqb kw_as "as" then token_kwargs_legacy bits []
            else Ok ([], bits)
        | _ => Ok ([], bits)
        end
  end.

End Tags.

End Django.

(** ** [class BlockTranslateNode(Node)] *)

Module BlockTranslateNode.
Import PyStr PyDict PyFormat Django.

Section Node.
Context {catalog : Catalog} {engine : TemplateEngine} {py : PyText}.

Record t := {
  extra_context : dict Expr;
  singular : list Token;
  plural : option (list Token);
  countervar : option string;
  counter : option Expr;
  message_context : option Expr;
  trimmed : bool;
  asvar : option string;
  tag_name : string
}.

(** ['%%(%s)s' % token.contents] *)
Definition placeholder (name : string) : string :=
  String.append "%(" (String.append name ")s").

Fixpoint token_list_parts (tokens : list Token) : list string * list string :=
  match tokens with
  | [] => ([], [])
  | token :: tokens' =>
      let '(result, vars) := token_list_parts tokens' in
      match token_type token with
      | TEXT => (replace "%" "%%" (contents token) :: result, vars)
      | VAR => (placeholder (contents token) :: result, contents token :: vars)
      | _ => (result, vars)
      end
  end.

Definition render_token_list (self : t) (tokens : list Token) : string * list string :=
  let '(result, vars) := token_list_parts tokens in
  let msg := join result in
  (if trimmed self then trim_whitespace msg else msg, vars).

(** The local function [render_value(key)] of [render]. *)
Definition render_value (key : string) : M text :=
  c ← get_context;
  val ← (if context_contains c key then lift (context_get c key)
         else
           let default_value := string_if_invalid c in
           if contains "%s" default_value then
             match py_format default_value (ArgStr key) with
             | FmtOk s => mret (VStr s)
             | FmtKeyError k => raise (KeyError k)
             | FmtValueError => raise ValueError
             | FmtTypeError => raise TypeError
             end
           else mret (VStr default_value));
  mret (render_value_in_context val c).

(** [{v: render_value(v) for v in vars}] *)
Fixpoint render_values (vars : list string) (data : dict string) : M (dict string) :=
  match vars with
  | [] => mret data
  | v :: vars' =>
      rendered ← render_value v;
      render_values vars' (dict_set v (chars rendered) data)
  end.

(** [{var: val.resolve(context) for var, val in self.extra_context.items()}] *)
Fixpoint resolve_items (items : dict Expr) (scope : gmap string value)
  : M (gmap string value) :=
  match items with
  | [] => mret scope
  | (var, val) :: items' =>
      v ← resolve_in_context val;
      resolve_items items' (<[var := v]> scope)
  end.

(** [if message_context:] on the resolved message context. *)
Definition has_context (message_context : option value) : option value :=
  match message_context with
  | Some v => if truthy v then Some v else None
  | None => None
  end.

(** [self.plural and self.countervar and self.counter], with the three
    values when all are true. *)
Definition pluralizes (self : t) : option (list Token * string * Expr) :=
  match plural self, countervar self, counter self with
  | Some (tok :: toks), Some name, Some e =>
      if String.eqb name EmptyString then None else Some (tok :: toks, name, e)
  | _, _, _ => None
  end.

(** [render] up to and including [context.pop()]: the string returned by
    the catalog and the substitution data. *)
Definition lookup_message (self : t) : M (string * dict string) :=
  message_context ←
    match message_context self with
    | Some e => v ← resolve_in_context e; mret (Some v)
    | None => mret None
    end;
  scope ← resolve_items (extra_context self) ∅;
  _ ← context_update scope;
  let '(singular, vars) := render_token_list self (singular self) in
  looked_up ←
    match pluralizes self with
    | Some (plural_tokens, countervar, counter) =>
        count ← resolve_in_context counter;
        _ ← context_setitem countervar count;
        let '(plural, plural_vars) := render_token_list self plural_tokens in
        result ← call_catalog
                   match has_context message_context with
                   | Some mc => Npgettext mc singular plural count
                   | None => Ngettext singular plural count
                   end;
        mret (result, vars ++ plural_vars)
    | None =>
        result ← call_catalog
                   match has_context message_context with
                   | Some mc => Pgettext mc singular
                   | None => Gettext singular
                   end;
        mret (result, vars)
    end;
  data ← render_values looked_up.2 [];
  _ ← context_pop;
  mret (looked_up.1, data).

(** [if self.asvar: context[self.asvar] = result; return ''] and its
    [else]. *)
Definition deliver (self : t) (result : string) : M string :=
  match asvar self with
  | Some name =>
      if String.eqb name EmptyString then mret result
      else _ ← context_setitem name (VStr result); mret EmptyString
  | None => mret result
  end.

(** [render(self, context, nested)].  The function calls itself once, with
    [nested=True]; [fuel] bounds the depth of these calls. *)
Fixpoint render_fuel (fuel : nat) (self : t) (nested : bool) : M string :=
  match fuel with
  | O => raise (Raised "RecursionError")
  | S fuel' =>
      looked_up ← lookup_message self;
      let result := looked_up.1 in
      let data := looked_up.2 in
      result ←
        match py_format result (ArgDict data) with
        | FmtOk formatted => mret formatted
        | FmtTypeError => raise TypeError
        | FmtKeyError _ | FmtValueError =>
            if nested then
              raise (TemplateSyntaxError (UnableToFormat (tag_name self) result data))
            else with_override None (render_fuel fuel' self true)
        end;
      deliver self result
  end.

Definition render (self : t) (nested : bool) : M string := render_fuel 2 self nested.

End Node.

End BlockTranslateNode.

(** ** [class TranslateNode(Node)] *)

Module TranslateNode.
Import PyStr PyDict PyFormat Django.

Section Node.
Context {engine : TemplateEngine}.

Record t := {
  noop : bool;
  asvar : option string;
  message_context : option Expr;
  filter_expression : Expr
}.

(** [render(self, context)].  The assignments to
    [self.filter_expression.var] select how the expression is resolved: with
    the [translate] flag unless [noop], and with the resolved message
    context. *)
Definition render (self : t) : M string :=
  message_context ←
    match message_context self with
    | Some e => v ← resolve_in_context e; mret (Some v)
    | None => mret None
    end;
  c ← get_context;
  language ← get_language;
  output ← lift (resolve_translated (filter_expression self) (negb (noop self))
                                     message_context c language);
  let value := render_value_in_context output c in
  let value := {| chars := replace "%%" "%" (chars value); is_safe := is_safe value |} in
  match asvar self with
  | Some name =>
      if String.eqb name EmptyString then mret (chars value)
      else _ ← context_setitem name (value_of_text value); mret EmptyString
  | None => mret (chars value)
  end.

End Node.

End TranslateNode.

(** ** [class LanguageNode(Node)] *)

Module LanguageNode.
Import PyStr PyDict PyFormat Django.

Section Node.
Context {engine : TemplateEngine}.

(** [nodelist] holds the render method of each node of the fragment. *)
Record t := {
  nodelist : list (M string);
  language : Expr
}.

(** [NodeList.render(context)]: render the nodes in order and join. *)
Fixpoint nodelist_render (nodes : list (M string)) : M string :=
  match nodes with
  | [] => mret EmptyString
  | node :: nodes' =>
      bit ← node;
      bits ← nodelist_render nodes';
      mret (String.append bit bits)
  end.

(** What [translation.override(language)] is handed: [None] deactivates,
    a [str] names the language, anything else fails in [activate] before
    a language is set. *)
Definition language_code (v : value) : Res (option string) :=
  match v with
  | VNone => Ok None
  | VStr s | VSafe s => Ok (Some s)
  | VInt _ => Raise AttributeError
  end.

Definition render (self : t) : M string :=
  v ← resolve_in_context (language self);
  code ← lift (language_code v);
  with_override code (nodelist_render (nodelist self)).

End Node.

End LanguageNode.

(** ** The parser [do_block_translate] *)

Module Parser.
Import PyStr PyDict PyFormat Django.

Section Tags.
Context {engine : TemplateEngine}.

(** The local dictionary [options], one field per option name. *)
Record Options := {
  opt_with : option (dict Expr);
  opt_count : option (dict Expr);
  opt_context : option Expr;
  opt_trimmed : option bool;
  opt_asvar : option string
}.

Definition no_options : Options :=
  {| opt_with := None; opt_count := None; opt_context := None;
     opt_trimmed := None; opt_asvar := None |}.

(** [option in options] *)
Definition option_in (option : string) (o : Options) : bool :=
  if String.eqb option "with" then bool_decide (is_Some (opt_with o))
  else if String.eqb option "count" then bool_decide (is_Some (opt_count o))
  else if String.eqb option "context" then bool_decide (is_Some (opt_context o))
  else if String.eqb option "trimmed" then bool_decide (is_Some (opt_trimmed o))
  else if String.eqb option "asvar" then bool_decide (is_Some (opt_asvar o))
  else false.

Definition set_with (o : Options) (v : dict Expr) : Options :=
  {| opt_with := Some v; opt_count := opt_count o; opt_context := opt_context o;
     opt_trimmed := opt_trimmed o; opt_asvar := opt_asvar o |}.

Definition set_count (o : Options) (v : dict Expr) : Options :=
  {| opt_with := opt_with o; opt_count := Some v; opt_context := opt_context o;
     opt_trimmed := opt_trimmed o; opt_asvar := opt_asvar o |}.

Definition set_context (o : Options) (v : Expr) : Options :=
  {| opt_with := opt_with o; opt_count := opt_count o; opt_context := Some v;
     opt_trimmed := opt_trimmed o; opt_asvar := opt_asvar o |}.

Definition set_trimmed (o : Options) (v : bool) : Options :=
  {| opt_with := opt_with o; opt_count := opt_count o; opt_context := opt_context o;
     opt_trimmed := Some v; opt_asvar := opt_asvar o |}.

Definition set_asvar (o : Options) (v : string) : Options :=
  {| opt_with := opt_with o; opt_count := opt_count o; opt_context := opt_context o;
     opt_trimmed := opt_trimmed o; opt_asvar := Some v |}.

(** One turn of the [while remaining_bits] loop, after
    [option = remaining_bits.pop(0)]; [options[option] = value] is the
    setter of the field. *)
Definition parse_option (tag : string) (o : Options) (option : string)
           (remaining_bits : list string) : Res (Options * list string) :=
  if option_in option o then Raise (TemplateSyntaxError (OptionTwice option))
  else if String.eqb option "with" then
    '(v, rest) ← token_kwargs remaining_bits true;
    match v with
    | [] => Raise (TemplateSyntaxError (WithNeedsKeyword tag))
    | _ => Ok (set_with o v, rest)
    end
  else if String.eqb option "count" then
    '(v, rest) ← token_kwargs remaining_bits true;
    if negb (length v =? 1)%nat then Raise (TemplateSyntaxError (CountExpectsOne tag))
    else Ok (set_count o v, rest)
  else if String.eqb option "context" then
    match remaining_bits with
    | [] => Raise (TemplateSyntaxError (ContextExpectsOne tag))
    | v :: rest =>
        match compile_filter v with
        | Raise _ => Raise (TemplateSyntaxError (ContextExpectsOne tag))
        | Ok e => Ok (set_context o e, rest)
        end
    end
  else if String.eqb option "trimmed" then Ok (set_trimmed o true, remaining_bits)
  else if String.eqb option "asvar" then
    match remaining_bits with
    | [] => Raise (TemplateSyntaxError (NoAsvarArgument tag))
    | v :: rest => Ok (set_asvar o v, rest)
    end
  else Raise (TemplateSyntaxError (UnknownArgument tag option)).

(** The [while remaining_bits] loop.  [token_kwargs] hands back the bits it
    did not consume, so the loop is written with a step budget; [None] is
    an exhausted budget. *)
Fixpoint parse_options_fuel (fuel : nat) (tag : string) (o : Options)
         (remaining_bits : list string) : option (Res Options) :=
  match remaining_bits with
  | [] => Some (Ok o)
  | option :: rest =>
      match fuel with
      | O => None
      | S fuel' =>
          match parse_option tag o option rest with
          | Ok (o', rest') => parse_options_fuel fuel' tag o' rest'
          | Raise e => Some (Raise e)
          end
      end
  end.

(** The loop started with the options [o] already stored.  Every turn
    consumes a bit, so one step per bit is enough (see
    [ParserFacts.parse_options_fuel_enough]). *)
Definition parse_options_from (tag : string) (o : Options)
           (remaining_bits : list string) : Res Options :=
  match parse_options_fuel (length remaining_bits) tag o remaining_bits with
  | Some r => r
  | None => Raise (Raised "RecursionError")
  end.

Definition parse_options (tag : string) (remaining_bits : list string) : Res Options :=
  parse_options_from tag no_options remaining_bits.

(** [while parser.tokens: token = parser.next_token(); ...]: the body
    tokens read, the value of the variable [token] when the loop ends, and
    the tokens left in the parser.  [token] keeps its previous value when
    the parser has no tokens left. *)
Fixpoint read_body (tokens : list Token) (token : Token)
  : list Token * Token * list Token :=
  match tokens with
  | [] => ([], token, [])
  | t :: rest =>
      if is_body_token t then
        let '(body, last, rest') := read_body rest t in (t :: body, last, rest')
      else ([], t, rest)
  end.

(** [if countervar and counter] *)
Definition counts (countervar : option string) (counter : option Expr) : bool :=
  match countervar, counter with
  | Some name, Some _ => negb (String.eqb name EmptyString)
  | _, _ => false
  end.

(** [countervar, counter = next(iter(options['count'].items()))], or
    [None, None] without the option. *)
Definition counter_binding (o : Options) : Res (option string * option Expr) :=
  match opt_count o with
  | Some ((name, e) :: _) => Ok (Some name, Some e)
  | Some [] => Raise StopIteration
  | None => Ok (None, None)
  end.

(** The [if countervar and counter:] block after the singular body. *)
Definition read_plural (tag : string) (counted : bool) (token : Token)
           (tokens : list Token) : Res (list Token * Token * list Token) :=
  if counted then
    if negb (String.eqb (strip (contents token)) "plural")
    then Raise (TemplateSyntaxError (OtherBlockTags tag))
    else Ok (read_body tokens token)
  else Ok ([], token, tokens).

(** The [BlockTranslateNode(...)] call that ends [do_block_translate]. *)
Definition make_node (bits0 : string) (o : Options)
           (cb : option string * option Expr) (singular plural : list Token)
  : BlockTranslateNode.t :=
  {| BlockTranslateNode.extra_context := default [] (opt_with o);
     BlockTranslateNode.singular := singular;
     BlockTranslateNode.plural := Some plural;
     BlockTranslateNode.countervar := cb.1;
     BlockTranslateNode.counter := cb.2;
     BlockTranslateNode.message_context := opt_context o;
     BlockTranslateNode.trimmed := default false (opt_trimmed o);
     BlockTranslateNode.asvar := opt_asvar o;
     BlockTranslateNode.tag_name := bits0 |}.

(** [do_block_translate(parser, token)] from [bits = token.split_contents()]
    on: [bits], the tag's own [token] and [parser.tokens]; the result is the
    node and the tokens left in the parser. *)
Definition do_block_translate (bits : list string) (token : Token)
           (tokens : list Token) : Res (BlockTranslateNode.t * list Token) :=
  let tag := hd EmptyString bits in
  o ← parse_options tag (tl bits);
  cb ← counter_binding o;
  let '(singular, token, tokens) := read_body tokens token in
  pl ← read_plural tag (counts cb.1 cb.2) token tokens;
  let '(plural, token, tokens) := pl in
  match bits with
  | [] => Raise IndexError
  | bits0 :: _ =>
      let end_tag_name := String.append "end" bits0 in
      if negb (String.eqb (strip (contents token)) end_tag_name)
      then Raise (TemplateSyntaxError (OtherBlockTagsSeen bits0 (contents token)))
      else Ok (make_node bits0 o cb singular plural, tokens)
  end.

End Tags.

End Parser.

(** ** A small host framework

    An engine, a catalog and a [repr] to run the tags on concrete input: the
    engine compiles a double-quoted literal or a variable name, the catalog
    has one French entry whose placeholder is misspelt. *)

Module Example.
Import PyStr PyDict PyFormat Django.

Inductive expr :=
| Constant (v : value)
| Lookup_var (name : string).

(** The double quote character. *)
Definition quote : ascii := "034"%char.

Definition unquote (s : string) : option string :=
  match s with
  | String c rest =>
      if Ascii.eqb c quote then
        match rev (list_ascii_of_string rest) with
        | c' :: inner =>
            if Ascii.eqb c' quote then Some (string_of_list_ascii (rev inner))
            else None
        | [] => None
        end
      else None
  | EmptyString => None
  end.

Definition is_name (s : string) : bool :=
  negb (String.eqb s EmptyString) &&
  forallb (fun c => is_word c || Ascii.eqb c ".") (list_ascii_of_string s).

Definition compile (s : string) : Res expr :=
  match unquote s with
  | Some inner => Ok (Constant (VSafe inner))
  | None =>
      if is_name s then Ok (Lookup_var s)
      else Raise (TemplateSyntaxError (FilterSyntax s))
  end.

Definition resolve_expr (e : expr) (c : Context) : Res value :=
  match e with
  | Constant v => Ok v
  | Lookup_var name =>
      match stack_get (dicts c) name with
      | Some v => Ok v
      | None => Ok (VStr (string_if_invalid c))
      end
  end.

Definition render_value (v : value) (c : Context) : text :=
  match v with
  | VNone => {| chars := "None"; is_safe := false |}
  | VInt n => {| chars := pretty n; is_safe := false |}
  | VStr s => {| chars := s; is_safe := false |}
  | VSafe s => {| chars := s; is_safe := true |}
  end.

#[export] Instance engine : TemplateEngine := {|
  Expr := expr;
  compile_filter := compile;
  resolve := resolve_expr;
  resolve_translated := fun e _ _ c _ => resolve_expr e c;
  render_value_in_context := render_value
|}.

Definition french (language : option string) (message : string) : string :=
  match language with
  | Some "fr" =>
      if String.eqb message "Hello %(name)s" then "Bonjour %(nom)s" else message
  | _ => message
  end.

Definition choose (language : option string) (singular plural : string)
           (number : value) : Res string :=
  match number with
  | VInt 1 => Ok (french language singular)
  | VInt _ => Ok (french language plural)
  | _ => Raise TypeError
  end.

#[export] Instance catalog : Catalog := {|
  gettext := fun language message => Ok (french language message);
  ngettext := choose;
  pgettext := fun language _ message => Ok (french language message);
  npgettext := fun language _ => choose language;
  trim_whitespace := strip
|}.

#[export] Instance py_text : PyText := fun _ a =>
  match a with
  | ArgStr s => String.append "'" (String.append s "'")
  | ArgDict _ => "{...}"
  end.

Definition text_token (s : string) : Token := {| token_type := TEXT; contents := s |}.
Definition var_token (s : string) : Token := {| token_type := VAR; contents := s |}.
Definition block_token (s : string) : Token := {| token_type := BLOCK; contents := s |}.
Definition comment_token (s : string) : Token := {| token_type := COMMENT; contents := s |}.

(** The token of the opening tag and the token streams of four blocks:
    [one{% plural %}many{% endblocktranslate %}], the same with both
    separators written as comments, a block without a plural section and a
    block with an empty one. *)
Definition opening : Token := block_token "blocktranslate".

Definition plural_block : list Token :=
  [text_token "one"; block_token "plural"; text_token "many";
   block_token "endblocktranslate"].

Definition commented_block : list Token :=
  [text_token "one"; comment_token "plural"; text_token "many";
   comment_token "endblocktranslate"].

Definition plain_block : list Token :=
  [text_token "hello"; block_token "endblocktranslate"].

Definition empty_plural_block : list Token :=
  [text_token "one"; block_token "plural"; block_token "endblocktranslate"].

(** The node a parse of a counting block gives. *)
Definition counting_node (counter : expr) (plural : list Token) : BlockTranslateNode.t :=
  {| BlockTranslateNode.extra_context := [];
     BlockTranslateNode.singular := [text_token "one"];
     BlockTranslateNode.plural := Some plural;
     BlockTranslateNode.countervar := Some "n";
     BlockTranslateNode.counter := Some counter;
     BlockTranslateNode.message_context := None;
     BlockTranslateNode.trimmed := false;
     BlockTranslateNode.asvar := None;
     BlockTranslateNode.tag_name := "blocktranslate" |}.

(** [{% blocktranslate %}Hello {{ name }}{% endblocktranslate %}], and the
    same block with [asvar greeting]. *)
Definition hello_node (asvar : option string) : BlockTranslateNode.t :=
  {| BlockTranslateNode.extra_context := [];
     BlockTranslateNode.singular := [text_token "Hello "; var_token "name"];
     BlockTranslateNode.plural := Some [];
     BlockTranslateNode.countervar := None;
     BlockTranslateNode.counter := None;
     BlockTranslateNode.message_context := None;
     BlockTranslateNode.trimmed := false;
     BlockTranslateNode.asvar := asvar;
     BlockTranslateNode.tag_name := "blocktranslate" |}.

(** A block whose only token is the variable [{{ na)me }}]: its message
    [%(na)me)s] cannot be substituted in any language. *)
Definition unbalanced_node : BlockTranslateNode.t :=
  {| BlockTranslateNode.extra_context := [];
     BlockTranslateNode.singular := [var_token "na)me"];
     BlockTranslateNode.plural := Some [];
     BlockTranslateNode.countervar := None;
     BlockTranslateNode.counter := None;
     BlockTranslateNode.message_context := None;
     BlockTranslateNode.trimmed := false;
     BlockTranslateNode.asvar := None;
     BlockTranslateNode.tag_name := "blocktranslate" |}.


(** [{% translate "100%%" noop %}] *)
Definition percent_node : TranslateNode.t :=
  {| TranslateNode.noop := true;
     TranslateNode.asvar := None;
     TranslateNode.message_context := None;
     TranslateNode.filter_expression := Constant (VSafe "100%%") |}.

(** A node that switches the language and then fails, wrapped in
    [{% language "de" %}]. *)
Definition failing_node : M string := fun w =>
  (Raise (Raised "boom"),
   {| context := context w; active := Some "xx"; trace := trace w |}).

Definition language_node : LanguageNode.t :=
  {| LanguageNode.nodelist := [failing_node];
     LanguageNode.language := Constant (VSafe "de") |}.

(** A context with the builtins scope and one scope of template variables,
    rendered with the given language active. *)
Definition world (language : option string) (vars : list (string * value)) : World :=
  {| context := {| dicts := [list_to_map vars; ∅]; string_if_invalid := EmptyString |};
     active := language;
     trace := [] |}.

Definition ann (language : option string) : World :=
  world language [("name", VStr "Ann")].

End Example.

(** ** Vocabulary of the properties *)

Module Observe.
Import PyStr PyDict PyFormat Django.

(** The failures of [result % data] that [render] catches:
    [except (KeyError, ValueError)]. *)
Definition caught (r : fmt_result) : bool :=
  match r with
  | FmtKeyError _ | FmtValueError => true
  | FmtOk _ | FmtTypeError => false
  end.

(** A variable name that [%(name)s] can carry: no parenthesis in it. *)
Definition no_paren (name : string) : bool :=
  forallb (fun c => negb (Ascii.eqb c "(" || Ascii.eqb c ")"))
          (list_ascii_of_string name).

(** The text of a token list with every variable replaced by its value in
    [data]. *)
Fixpoint substituted (tokens : list Token) (data : dict string) : string :=
  match tokens with
  | [] => EmptyString
  | token :: tokens' =>
      String.append
        match token_type token with
        | TEXT => contents token
        | VAR => default EmptyString (dict_get data (contents token))
        | _ => EmptyString
        end
        (substituted tokens' data)
  end.

(** Every variable of the token list is free of parentheses and has a value
    in [data]. *)
Definition vars_bound (tokens : list Token) (data : dict string) : bool :=
  forallb (fun token =>
             match token_type token with
             | VAR => no_paren (contents token)
                      && bool_decide (is_Some (dict_get data (contents token)))
             | _ => true
             end) tokens.

(** A block tag [{% name %}]. *)
Definition is_tag (name : string) (t : Token) : Prop :=
  token_type t = BLOCK /\ strip (contents t) = name.

Definition is_update (e : event) : bool :=
  match e with Update _ => true | _ => false end.

Definition is_pop (e : event) : bool :=
  match e with Pop => true | _ => false end.

Definition is_lookup (e : event) : bool :=
  match e with Lookup _ _ => true | _ => false end.

Definition is_override (e : event) : bool :=
  match e with OverrideEnter _ => true | _ => false end.

(** How many events of a kind a trace has. *)
Definition count (kind : event -> bool) (events : list event) : nat :=
  length (List.filter kind events).

(** A catalog call for a plural form. *)
Definition is_plural_call (call : catalog_call) : bool :=
  match call with
  | Ngettext _ _ _ | Npgettext _ _ _ _ => true
  | Gettext _ | Pgettext _ _ => false
  end.

(** The world after [events] were appended to the trace. *)
Definition log (events : list event) (w : World) : World :=
  {| context := context w; active := active w; trace := trace w ++ events |}.

(** The context with [scope] pushed. *)
Definition pushed (scope : gmap string value) (c : Context) : Context :=
  {| dicts := scope :: dicts c; string_if_invalid := string_if_invalid c |}.

(** The world with [key] assigned in the top scope and the assignment
    traced. *)
Definition assigned (key : string) (v : value) (w : World) : World :=
  {| context := {| dicts := match dicts (context w) with
                            | top :: below => <[key := v]> top :: below
                            | [] => []
                            end;
                   string_if_invalid := string_if_invalid (context w) |};
     active := active w;
     trace := trace w ++ [SetItem key v] |}.

Section Nodes.
Context {catalog : Catalog} {engine : TemplateEngine} {py : PyText}.

(** The message context of a node resolved in a context: [None] without
    the option. *)
Definition resolved_context (self : BlockTranslateNode.t) (c : Context)
  : Res (option value) :=
  match BlockTranslateNode.message_context self with
  | Some e => v ← resolve e c; Ok (Some v)
  | None => Ok None
  end.

(** The message of a token list, as [render_token_list] builds it. *)
Definition message_of (self : BlockTranslateNode.t) (tokens : list Token) : string :=
  (BlockTranslateNode.render_token_list self tokens).1.

(** The catalog calls of the two branches of [render]. *)
Definition singular_call (self : BlockTranslateNode.t) (mc : option value)
  : catalog_call :=
  match BlockTranslateNode.has_context mc with
  | Some c => Pgettext c (message_of self (BlockTranslateNode.singular self))
  | None => Gettext (message_of self (BlockTranslateNode.singular self))
  end.

Definition plural_call (self : BlockTranslateNode.t) (mc : option value)
           (plural_tokens : list Token) (number : value) : catalog_call :=
  match BlockTranslateNode.has_context mc with
  | Some c => Npgettext c (message_of self (BlockTranslateNode.singular self))
                        (message_of self plural_tokens) number
  | None => Ngettext (message_of self (BlockTranslateNode.singular self))
                     (message_of self plural_tokens) number
  end.

(** The second attempt of a render, which cannot be retried: one more
    lookup, one more substitution, and the syntax error if that fails. *)
Definition final_attempt (self : BlockTranslateNode.t) : M string :=
  looked_up ← BlockTranslateNode.lookup_message self;
  match py_format looked_up.1 (ArgDict looked_up.2) with
  | FmtOk formatted => BlockTranslateNode.deliver self formatted
  | FmtTypeError => raise TypeError
  | FmtKeyError _ | FmtValueError =>
      raise (TemplateSyntaxError
               (UnableToFormat (BlockTranslateNode.tag_name self)
                               looked_up.1 looked_up.2))
  end.

(** The node with its counter taken away. *)
Definition without_counter (self : BlockTranslateNode.t) : BlockTranslateNode.t :=
  {| BlockTranslateNode.extra_context := BlockTranslateNode.extra_context self;
     BlockTranslateNode.singular := BlockTranslateNode.singular self;
     BlockTranslateNode.plural := BlockTranslateNode.plural self;
     BlockTranslateNode.countervar := None;
     BlockTranslateNode.counter := None;
     BlockTranslateNode.message_context := BlockTranslateNode.message_context self;
     BlockTranslateNode.trimmed := BlockTranslateNode.trimmed self;
     BlockTranslateNode.asvar := BlockTranslateNode.asvar self;
     BlockTranslateNode.tag_name := BlockTranslateNode.tag_name self |}.

(** [self.asvar] when it is true. *)
Definition asvar_name (self : BlockTranslateNode.t) : option string :=
  match BlockTranslateNode.asvar self with
  | Some name => if String.eqb name EmptyString then None else Some name
  | None => None
  end.

(** Every run of [m] only appends to the trace, and appends events that
    satisfy [P]. *)
Definition appends {A} (P : event -> Prop) (m : M A) : Prop :=
  forall w, exists events, trace (m w).2 = trace w ++ events /\ Forall P events.

End Nodes.

End Observe.

(** ** The parser [do_translate] *)

Module TranslateParser.
Import PyStr PyDict PyFormat Django.

(** The messages of the [TemplateSyntaxError]s of [do_translate]. *)
Inductive translate_message :=
| TakesAtLeastOne (tag : string)
| SpecifiedTwice (option : string)
| NoContextArgument (tag : string)
| InvalidContextArgument (argument tag : string)
| NoAsArgument (tag : string)
| UnknownTranslateArgument (tag option : string).

(** How [do_translate] ends: with a value, with a syntax error of its
    own, or with an exception that came from elsewhere (the filter compiler,
    an index out of range). *)
Inductive Outcome (A : Type) :=
| Done (a : A)
| Syntax (m : translate_message)
| Failed (e : exn).
Arguments Done {A} a.
Arguments Syntax {A} m.
Arguments Failed {A} e.

Section Tags.
Context {engine : TemplateEngine}.

(** The local variables of the option loop. *)
Record Locals := {
  noop : bool;
  asvar : option string;
  message_context : option Expr;
  seen : gset string
}.

Definition initial : Locals :=
  {| noop := false; asvar := None; message_context := None; seen := ∅ |}.

(** [invalid_context = {'as', 'noop'}] *)
Definition invalid_context : gset string := {[ "as"; "noop" ]}.

(** The [while remaining] loop; every turn ends with [seen.add(option)]. *)
Fixpoint options_loop (tag : string) (l : Locals) (remaining : list string)
  : Outcome Locals :=
  match remaining with
  | [] => Done l
  | option :: rest =>
      if bool_decide (option ∈ seen l) then Syntax (SpecifiedTwice option)
      else if String.eqb option "noop" then
        options_loop tag {| noop := true; asvar := asvar l;
                            message_context := message_context l;
                            seen := {[ option ]} ∪ seen l |} rest
      else if String.eqb option "context" then
        match rest with
        | [] => Syntax (NoContextArgument tag)
        | v :: rest' =>
            if bool_decide (v ∈ invalid_context)
            then Syntax (InvalidContextArgument v tag)
            else
              match compile_filter v with
              | Raise e => Failed e
              | Ok e =>
                  options_loop tag {| noop := noop l; asvar := asvar l;
                                      message_context := Some e;
                                      seen := {[ option ]} ∪ seen l |} rest'
              end
        end
      else if String.eqb option "as" then
        match rest with
        | [] => Syntax (NoAsArgument tag)
        | v :: rest' =>
            options_loop tag {| noop := noop l; asvar := Some v;
                                message_context := message_context l;
                                seen := {[ option ]} ∪ seen l |} rest'
        end
      else Syntax (UnknownTranslateArgument tag option)
  end.

(** [do_translate(parser, token)] from [bits = token.split_contents()] on.
    With no bit at all the error message itself cannot be built
    ([bits[0]]). *)
Definition do_translate (bits : list string) : Outcome TranslateNode.t :=
  match bits with
  | [] => Failed IndexError
  | [tag] => Syntax (TakesAtLeastOne tag)
  | tag :: message :: remaining =>
      match compile_filter message with
      | Raise e => Failed e
      | Ok message_string =>
          match options_loop tag initial remaining with
          | Done l =>
              Done {| TranslateNode.noop := noop l;
                      TranslateNode.asvar := asvar l;
                      TranslateNode.message_context := message_context l;
                      TranslateNode.filter_expression := message_string |}
          | Syntax m => Syntax m
          | Failed e => Failed e
          end
      end
  end.

End Tags.

End TranslateParser.

(** ** More vocabulary *)

Module ObserveMore.
Import PyStr PyDict PyFormat Django Parser Observe.

Section Options.
Context {engine : TemplateEngine}.

(** Every option stored in [o] is stored in [o'] with the same value. *)
Definition extends_options (o o' : Options) : Prop :=
  (forall v, opt_with o = Some v -> opt_with o' = Some v) /\
  (forall v, opt_count o = Some v -> opt_count o' = Some v) /\
  (forall v, opt_context o = Some v -> opt_context o' = Some v) /\
  (forall v, opt_trimmed o = Some v -> opt_trimmed o' = Some v) /\
  (forall v, opt_asvar o = Some v -> opt_asvar o' = Some v).

(** The five option names of [blocktranslate]. *)
Definition known_option (option : string) : bool :=
  String.eqb option "with" || String.eqb option "count"
  || String.eqb option "context" || String.eqb option "trimmed"
  || String.eqb option "asvar".

End Options.

(** [tokens[-1]] when there is one, the previous value of the variable
    [token] otherwise. *)
Definition last_token (tokens : list Token) (token : Token) : Token :=
  List.last tokens token.

(** The contents of the variable tokens, in order. *)
Definition var_names (tokens : list Token) : list string :=
  map contents (List.filter (fun t => match token_type t with VAR => true | _ => false end)
                            tokens).

(** An event of a language override, entry or exit. *)
Definition is_override_event (e : event) : bool :=
  match e with
  | OverrideEnter _ | OverrideExit _ => true
  | _ => false
  end.

(** Every run of [m] leaves the active language as it found it. *)
Definition keeps_language {A} (m : M A) : Prop :=
  forall w, active (m w).2 = active w.

(** The world in which the names of a block are rendered: [scope] pushed
    and [events] traced. *)
Definition inside (scope : gmap string value) (events : list event) (w : World)
  : World :=
  {| context := pushed scope (context w); active := active w;
     trace := trace w ++ events |}.

Section Calls.
Context {catalog : Catalog} {engine : TemplateEngine} {py : PyText}.

(** What the catalog answers to a call made while [language] is active. *)
Definition answer (language : option string) (call : catalog_call) : Res string :=
  match call with
  | Gettext m => gettext language m
  | Ngettext s p n => ngettext language s p n
  | Pgettext c m => pgettext language c m
  | Npgettext c s p n => npgettext language c s p n
  end.

(** An event of a render that treats the block as not plural: a lookup is a
    [gettext] or [pgettext] of the singular message, an assignment is the
    one of [asvar], to a string. *)
Definition singular_event (self : BlockTranslateNode.t) (e : event) : Prop :=
  match e with
  | Lookup _ (Gettext m) | Lookup _ (Pgettext _ m) =>
      m = message_of self (BlockTranslateNode.singular self)
  | Lookup _ _ => False
  | SetItem name v => asvar_name self = Some name /\ exists s, v = VStr s
  | _ => True
  end.

End Calls.

(** The bits a [translate] tag can spend on options that are not yet seen:
    one for [noop], two each for [context] and [as]. *)
Definition option_budget (seen : gset string) : nat :=
  (if bool_decide ("noop" ∈ seen) then 0 else 1)
  + (if bool_decide ("context" ∈ seen) then 0 else 2)
  + (if bool_decide ("as" ∈ seen) then 0 else 2).

End ObserveMore.

(** ** Further examples *)

Module ExampleMore.
Import PyStr PyDict PyFormat Django Example.

(** An engine whose variables go through a filter that raises on a name
    the context does not hold. *)
Definition strict_resolve (e : expr) (c : Context) : Res value :=
  match e with
  | Constant v => Ok v
  | Lookup_var name =>
      match stack_get (dicts c) name with
      | Some v => Ok v
      | None => Raise (Raised "filter")
      end
  end.

Definition strict_engine : TemplateEngine := {|
  Expr := expr;
  compile_filter := compile;
  resolve := strict_resolve;
  resolve_translated := fun e _ _ c _ => strict_resolve e c;
  render_value_in_context := render_value
|}.

(** [{% blocktranslate count n=items %}one{% plural %}many{% endblocktranslate %}]
    for the strict engine. *)
Definition strict_counting_node : @BlockTranslateNode.t strict_engine :=
  {| BlockTranslateNode.extra_context := [];
     BlockTranslateNode.singular := [text_token "one"];
     BlockTranslateNode.plural := Some [text_token "many"];
     BlockTranslateNode.countervar := Some "n";
     BlockTranslateNode.counter := Some (Lookup_var "items" : @Expr strict_engine);
     BlockTranslateNode.message_context := None;
     BlockTranslateNode.trimmed := false;
     BlockTranslateNode.asvar := None;
     BlockTranslateNode.tag_name := "blocktranslate" |}.

(** A catalog whose German entry for [Hello %(name)s] asks for a number. *)
Definition german (language : option string) (message : string) : string :=
  match language with
  | Some "de" =>
      if String.eqb message "Hello %(name)s" then "Hallo %(name)d" else message
  | _ => message
  end.

Definition german_catalog : Catalog := {|
  gettext := fun language message => Ok (german language message);
  ngettext := fun language singular plural number =>
    match number with
    | VInt 1 => Ok (german language singular)
    | VInt _ => Ok (german language plural)
    | _ => Raise TypeError
    end;
  pgettext := fun language _ message => Ok (german language message);
  npgettext := fun language _ singular plural number =>
    match number with
    | VInt 1 => Ok (german language singular)
    | VInt _ => Ok (german language plural)
    | _ => Raise TypeError
    end;
  trim_whitespace := strip
|}.

(** A block that ends without its closing tag, on the text
    [endblocktranslate]. *)
Definition unclosed_block : list Token :=
  [text_token "hello "; text_token "endblocktranslate"].

(** [{% translate "100%%" as rate %}] *)
Definition rate_node : TranslateNode.t :=
  {| TranslateNode.noop := false;
     TranslateNode.asvar := Some "rate";
     TranslateNode.message_context := None;
     TranslateNode.filter_expression := Constant (VSafe "100%%") |}.

(** The bits of [{% translate "hi" noop as noop context greeting %}] and
    the node they give. *)
Definition translate_bits : list string :=
  ["translate"; String quote (String.append "hi" (String quote EmptyString));
   "noop"; "as"; "noop"; "context"; "greeting"].

Definition translate_node : TranslateNode.t :=
  {| TranslateNode.noop := true;
     TranslateNode.asvar := Some "noop";
     TranslateNode.message_context := Some (Lookup_var "greeting" : @Expr engine);
     TranslateNode.filter_expression := Constant (VSafe "hi") |}.

End ExampleMore.

(** * Properties *)

(** ** Strings and the [%] operator *)

Module StringFacts.
Import PyStr PyDict PyFormat Django.

Lemma prefix_cons a s b t :
  String.prefix (String a s) (String b t) = Ascii.eqb a b && String.prefix s t.
Proof.
  simpl. destruct (ascii_dec a b) as [->|Hne].
  - by rewrite Ascii.eqb_refl.
  - apply Ascii.eqb_neq in Hne. by rewrite Hne.
Qed.

Lemma prefix_nil s : String.prefix EmptyString s = true.
Proof. by destruct s. Qed.

Lemma append_cons x (a b : string) :
  String.append (String x a) b = String x (String.append a b).
Proof. reflexivity. Qed.

Lemma append_nil (b : string) : String.append EmptyString b = b.
Proof. reflexivity. Qed.

Lemma append_assoc (a b c : string) :
  String.append (String.append a b) c = String.append a (String.append b c).
Proof.
  induction a as [|x a IH]; [done|]. rewrite !append_cons. by rewrite IH.
Qed.

Lemma append_empty_r (a : string) : String.append a EmptyString = a.
Proof.
  induction a as [|x a IH]; [done|]. rewrite append_cons. by rewrite IH.
Qed.

(** Doubling: [s.replace('%', '%%')], one character at a time. *)
Lemma double_cons c s :
  replace "%" "%%" (String c s) =
  if Ascii.eqb c percent then String percent (String percent (replace "%" "%%" s))
  else String c (replace "%" "%%" s).
Proof.
  unfold replace. cbn [replace_from]. rewrite prefix_cons.
  rewrite Ascii.eqb_sym. unfold percent.
  destruct (Ascii.eqb c "%") eqn:E; [|done].
  apply Ascii.eqb_eq in E as ->. rewrite prefix_nil. reflexivity.
Qed.








Section Format.
Context {py : PyText}.

Lemma fmt_app_empty r : fmt_app EmptyString r = r.
Proof. by destruct r. Qed.

Lemma fmt_app_app a b r :
  fmt_app a (fmt_app b r) = fmt_app (String.append a b) r.
Proof. destruct r; simpl; try done. by rewrite append_assoc. Qed.

Lemma run_cons st cur c fmt :
  run st cur (String c fmt) =
  match step st cur c with
  | Goto st' cur' => run st' cur' fmt
  | Emit text cur' => fmt_app text (run Literal cur' fmt)
  | Fail e => e
  end.
Proof. reflexivity. Qed.

(** Literal text whose percent signs were doubled formats to itself. *)
Lemma run_doubled_text s cur rest :
  run Literal cur (String.append (replace "%" "%%" s) rest) =
  fmt_app s (run Literal cur rest).
Proof.
  induction s as [|c s IH].
  - by rewrite fmt_app_empty.
  - rewrite double_cons. destruct (Ascii.eqb c percent) eqn:E.
    + apply Ascii.eqb_eq in E as ->. rewrite !append_cons.
      rewrite run_cons. cbn [step]. rewrite Ascii.eqb_refl.
      rewrite run_cons. cbn [step]. rewrite Ascii.eqb_refl.
      rewrite IH, fmt_app_app. reflexivity.
    + rewrite append_cons, run_cons. cbn [step]. rewrite E.
      rewrite IH, fmt_app_app. reflexivity.
Qed.

(** ['%%(%s)s' % name] is the placeholder [%(name)s]. *)
Lemma placeholder_format name :
  py_format "%%(%s)s" (ArgStr name) = FmtOk (BlockTranslateNode.placeholder name).
Proof.
  unfold py_format, BlockTranslateNode.placeholder. cbv. reflexivity.
Qed.

Lemma run_key name : forall key cur d v rest,
  mapping cur = Some d ->
  Observe.no_paren name = true ->
  dict_get d (String.append key name) = Some v ->
  run (InKey 1 key) cur (String.append name (String ")" rest)) =
  run (Flags no_spec) {| mapping := Some d; next_arg := Some (ArgStr v) |} rest.
Proof.
  induction name as [|c name IH]; intros key cur d v rest Hd Hn Hv.
  - rewrite append_empty_r in Hv. rewrite append_nil, run_cons.
    cbn [step]. rewrite Ascii.eqb_refl, Hd, Hv. reflexivity.
  - unfold Observe.no_paren in Hn. cbn [list_ascii_of_string forallb] in Hn.
    apply andb_true_iff in Hn as [Hc Hn].
    apply negb_true_iff, orb_false_iff in Hc as [Hc1 Hc2].
    rewrite append_cons, run_cons. cbn [step]. rewrite Hc2, Hc1.
    apply IH; [done | done |].
    by rewrite append_assoc.
Qed.

Lemma run_conversion_s cur v rest :
  next_arg cur = Some (ArgStr v) ->
  run (Flags no_spec) cur (String "s" rest) =
  fmt_app v (run Literal {| mapping := mapping cur; next_arg := None |} rest).
Proof.
  intros H. rewrite run_cons. cbn [step]. 
  change (one_of "-+ #0" "s") with false. change (Ascii.eqb "s" "*") with false.
  change (is_digit "s") with false. cbv iota.
  unfold after_width. change (Ascii.eqb "s" ".") with false. cbv iota.
  unfold after_prec. change (one_of "hlL" "s") with false. cbv iota.
  unfold convert. rewrite H. reflexivity.
Qed.

Lemma run_placeholder name cur d v rest :
  mapping cur = Some d ->
  Observe.no_paren name = true ->
  dict_get d name = Some v ->
  run Literal cur (String.append (BlockTranslateNode.placeholder name) rest) =
  fmt_app v (run Literal {| mapping := Some d; next_arg := None |} rest).
Proof.
  intros Hd Hn Hv. unfold BlockTranslateNode.placeholder.
  rewrite !append_cons, append_nil.
  rewrite run_cons. cbn [step]. change (Ascii.eqb "%" percent) with true. cbv iota.
  rewrite run_cons. cbn [step]. change (Ascii.eqb "(" percent) with false.
  change (Ascii.eqb "(" "(") with true. cbv iota. rewrite Hd.
  rewrite append_assoc, !append_cons, append_nil.
  rewrite (run_key name EmptyString cur d v); [|done|done|done].
  by rewrite (run_conversion_s _ v).
Qed.

(** The message built from a token list formats to the text of the tokens
    with the variables substituted. *)
Lemma run_token_list data tokens : forall cur rest,
  mapping cur = Some data ->
  Observe.vars_bound tokens data = true ->
  exists cur', mapping cur' = Some data /\
    run Literal cur
        (String.append (join (BlockTranslateNode.token_list_parts tokens).1) rest) =
    fmt_app (Observe.substituted tokens data) (run Literal cur' rest).
Proof.
  induction tokens as [|token tokens IH]; intros cur rest Hd Hb.
  - exists cur. split; [done|]. by rewrite fmt_app_empty.
  - cbn [Observe.vars_bound forallb] in Hb. apply andb_true_iff in Hb as [Ht Hb].
    cbn [BlockTranslateNode.token_list_parts Observe.substituted].
    destruct (BlockTranslateNode.token_list_parts tokens) as [result vars] eqn:Ep.
    cbn [fst] in IH.
    destruct (token_type token) eqn:Ty; cbn [fst join fold_right].
    + destruct (IH cur rest Hd Hb) as (cur' & Hm & Hr).
      exists cur'. split; [done|].
      rewrite append_assoc, run_doubled_text.
      unfold join in Hr. rewrite Hr. by rewrite fmt_app_app.
    + apply andb_true_iff in Ht as [Hn Hs].
      apply bool_decide_eq_true in Hs as [v Hv].
      destruct (IH {| mapping := Some data; next_arg := None |} rest eq_refl Hb)
        as (cur' & Hm & Hr).
      exists cur'. split; [done|].
      rewrite append_assoc, (run_placeholder _ _ data v); [|done..].
      unfold join in Hr. rewrite Hr, Hv. by rewrite fmt_app_app.
    + destruct (IH cur rest Hd Hb) as (cur' & Hm & Hr).
      exists cur'. split; [done|]. by rewrite append_nil.
    + destruct (IH cur rest Hd Hb) as (cur' & Hm & Hr).
      exists cur'. split; [done|]. by rewrite append_nil.
Qed.

End Format.

End StringFacts.

(** ** The parser *)

Module ParserFacts.
Import PyStr PyDict PyFormat Django Parser.

Section Facts.
Context {engine : TemplateEngine}.

Lemma token_kwargs_keyword_length bits : forall kwargs kwargs' rest,
  token_kwargs_keyword bits kwargs = Ok (kwargs', rest) ->
  length rest <= length bits.
Proof.
  induction bits as [|bit bits IH]; intros kwargs kwargs' rest H; cbn in H.
  - inversion H. done.
  - destruct (kwarg_re_match bit) as [[[key|] v]|].
    + destruct (compile_filter v) as [e|]; cbn in H; [|done].
      apply IH in H. cbn. lia.
    + inversion H. done.
    + inversion H. done.
Qed.

Lemma token_kwargs_legacy_length n : forall bits kwargs kwargs' rest,
  length bits <= n ->
  token_kwargs_legacy bits kwargs = Ok (kwargs', rest) ->
  length rest <= length bits.
Proof.
  induction n as [|n IH]; intros bits kwargs kwargs' rest Hn H.
  - destruct bits; [|cbn in Hn; lia]. inversion H. done.
  - destruct bits as [|v [|kw_as [|key rest0]]]; try (inversion H; done).
    cbn [token_kwargs_legacy] in H.
    destruct (String.eqb kw_as "as"); [|inversion H; done].
    destruct (compile_filter v) as [e|]; [|done].
    destruct rest0 as [|kw_and rest1]; [inversion H; cbn; lia|].
    destruct (String.eqb kw_and "and").
    + apply IH in H; cbn in *; lia.
    + inversion H. cbn. lia.
Qed.

Lemma token_kwargs_length bits legacy kwargs rest :
  token_kwargs bits legacy = Ok (kwargs, rest) -> length rest <= length bits.
Proof.
  unfold token_kwargs. destruct bits as [|bit bits]; [inversion 1; done|].
  destruct (kwarg_format bit).
  - apply token_kwargs_keyword_length.
  - destruct (negb legacy); [inversion 1; done|].
    destruct bits as [|kw_as [|key rest0]]; try (inversion 1; done).
    destruct (String.eqb kw_as "as"); [|inversion 1; done].
    eapply token_kwargs_legacy_length. done.
Qed.

Lemma parse_option_length tag o option bits o' rest :
  parse_option tag o option bits = Ok (o', rest) -> length rest <= length bits.
Proof.
  unfold parse_option.
  destruct (option_in option o); [done|].
  destruct (String.eqb option "with").
  { destruct (token_kwargs bits true) as [[v r]|] eqn:E; cbn; [|done].
    apply token_kwargs_length in E. destruct v; [done|]. inversion 1; by subst. }
  destruct (String.eqb option "count").
  { destruct (token_kwargs bits true) as [[v r]|] eqn:E; cbn; [|done].
    apply token_kwargs_length in E.
    destruct (negb (length v =? 1)%nat); [done|]. inversion 1; by subst. }
  destruct (String.eqb option "context").
  { destruct bits as [|v r]; [done|]. destruct (compile_filter v); [|done].
    inversion 1; subst. cbn. lia. }
  destruct (String.eqb option "trimmed"); [inversion 1; by subst|].
  destruct (String.eqb option "asvar"); [|done].
  destruct bits as [|v r]; [done|]. inversion 1; subst. cbn. lia.
Qed.

(** The step budget: any budget of at least one step per bit gives the same
    result, and that result is never the exhausted budget. *)
Lemma parse_options_fuel_stable tag f1 : forall f2 o bits,
  length bits <= f1 -> length bits <= f2 ->
  parse_options_fuel f1 tag o bits = parse_options_fuel f2 tag o bits.
Proof.
  induction f1 as [|f1 IH]; intros f2 o bits H1 H2.
  - destruct bits; [|cbn in H1; lia]. by destruct f2.
  - destruct bits as [|option rest]; [by destruct f2|].
    destruct f2 as [|f2]; [cbn in H2; lia|]. cbn [parse_options_fuel].
    destruct (parse_option tag o option rest) as [[o' rest']|] eqn:E; [|done].
    apply parse_option_length in E. cbn in H1, H2. apply IH; lia.
Qed.

Lemma parse_options_fuel_enough tag fuel : forall o bits,
  length bits <= fuel -> is_Some (parse_options_fuel fuel tag o bits).
Proof.
  induction fuel as [|fuel IH]; intros o bits H.
  - destruct bits; [by eexists|cbn in H; lia].
  - destruct bits as [|option rest]; [by eexists|]. cbn [parse_options_fuel].
    destruct (parse_option tag o option rest) as [[o' rest']|] eqn:E; [|by eexists].
    apply parse_option_length in E. cbn in H. apply IH. lia.
Qed.

(** The loop, one turn at a time. *)
Lemma parse_options_from_nil tag o : parse_options_from tag o [] = Ok o.
Proof. reflexivity. Qed.

Lemma parse_options_from_cons tag o option rest :
  parse_options_from tag o (option :: rest) =
  match parse_option tag o option rest with
  | Ok (o', rest') => parse_options_from tag o' rest'
  | Raise e => Raise e
  end.
Proof.
  unfold parse_options_from. cbn [length parse_options_fuel].
  destruct (parse_option tag o option rest) as [[o' rest']|] eqn:E; [|done].
  apply parse_option_length in E.
  by rewrite (parse_options_fuel_stable tag (length rest) (length rest')).
Qed.

Lemma option_in_refl_count o :
  option_in "count" o = bool_decide (is_Some (opt_count o)).
Proof. reflexivity. Qed.

Lemma option_in_refl_with o :
  option_in "with" o = bool_decide (is_Some (opt_with o)).
Proof. reflexivity. Qed.

(** A turn of the loop never changes an option that is already stored. *)
Lemma parse_option_keeps tag o option bits o' rest :
  parse_option tag o option bits = Ok (o', rest) ->
  (forall kw, opt_count o = Some kw -> opt_count o' = Some kw) /\
  (forall kw, opt_with o = Some kw -> opt_with o' = Some kw).
Proof.
  unfold parse_option.
  destruct (option_in option o) eqn:Hin; [done|].
  destruct (String.eqb option "with") eqn:E1.
  { apply String.eqb_eq in E1 as ->. rewrite option_in_refl_with in Hin.
    apply bool_decide_eq_false in Hin.
    destruct (token_kwargs bits true) as [[v r]|]; cbn; [|done].
    destruct v; [done|]. inversion 1; subst. split; [done|].
    intros kw Hkw. destruct Hin. by eexists. }
  destruct (String.eqb option "count") eqn:E2.
  { apply String.eqb_eq in E2 as ->. rewrite option_in_refl_count in Hin.
    apply bool_decide_eq_false in Hin.
    destruct (token_kwargs bits true) as [[v r]|]; cbn; [|done].
    destruct (negb (length v =? 1)%nat); [done|]. inversion 1; subst.
    split; [|done]. intros kw Hkw. destruct Hin. by eexists. }
  destruct (String.eqb option "context").
  { destruct bits as [|v r]; [done|]. destruct (compile_filter v); [|done].
    inversion 1; by subst. }
  destruct (String.eqb option "trimmed"); [inversion 1; by subst|].
  destruct (String.eqb option "asvar"); [|done].
  destruct bits as [|v r]; [done|]. inversion 1; by subst.
Qed.

Lemma parse_options_from_keeps tag n : forall bits o o',
  length bits <= n ->
  parse_options_from tag o bits = Ok o' ->
  (forall kw, opt_count o = Some kw -> opt_count o' = Some kw) /\
  (forall kw, opt_with o = Some kw -> opt_with o' = Some kw).
Proof.
  induction n as [|n IH]; intros bits o o' Hn H.
  - destruct bits; [|cbn in Hn; lia]. inversion H; by subst.
  - destruct bits as [|option rest]; [inversion H; by subst|].
    rewrite parse_options_from_cons in H.
    destruct (parse_option tag o option rest) as [[o1 rest1]|] eqn:E; [|done].
    pose proof (parse_option_length _ _ _ _ _ _ E) as Hl.
    apply parse_option_keeps in E as [Ec Ew].
    apply IH in H as [Hc Hw]; [|cbn in Hn; lia].
    split; intros kw Hkw; eauto.
Qed.

Lemma read_body_app singular : forall sep rest token,
  Forall (fun t => is_body_token t = true) singular ->
  is_body_token sep = false ->
  read_body (singular ++ sep :: rest) token = (singular, sep, rest).
Proof.
  induction singular as [|t singular IH]; intros sep rest token Hs Hsep.
  - cbn. by rewrite Hsep.
  - inversion Hs as [|? ? Ht Hs']; subst. cbn. rewrite Ht.
    by rewrite (IH sep rest t Hs' Hsep).
Qed.

(** Two keyword bindings of one name leave a single entry, with the later
    expression. *)
Lemma repeated_keyword_collapses b1 b2 key v1 v2 e1 e2 :
  kwarg_re_match b1 = Some (Some key, v1) ->
  kwarg_re_match b2 = Some (Some key, v2) ->
  compile_filter v1 = Ok e1 ->
  compile_filter v2 = Ok e2 ->
  token_kwargs [b1; b2] true = Ok ([(key, e2)], []).
Proof.
  intros M1 M2 C1 C2. unfold token_kwargs, kwarg_format. rewrite M1.
  cbn [token_kwargs_keyword]. rewrite M1, C1. cbn. rewrite M2, C2. cbn.
  by rewrite String.eqb_refl.
Qed.

Lemma do_block_translate_raise tag args token tokens e :
  parse_options tag args = Raise e ->
  do_block_translate (tag :: args) token tokens = Raise e.
Proof. intros H. unfold do_block_translate. cbn [hd tl]. by rewrite H. Qed.

(** X19: when the loop over the options meets [count], the keyword
    bindings that follow are collected into a mapping by name; the loop goes
    on only if that mapping has exactly one entry and otherwise raises the
    "expected exactly one keyword argument" syntax error, which is then the
    result of [do_block_translate].  When parsing the options succeeds, the
    single entry is the counter variable and the counter expression.  A name
    bound twice is one entry, holding the later expression. *)
Theorem count_needs_one_entry tag o rest kw rest' :
  option_in "count" o = false ->
  token_kwargs rest true = Ok (kw, rest') ->
  parse_options_from tag o ("count" :: rest) =
    (if (length kw =? 1)%nat then parse_options_from tag (set_count o kw) rest'
     else Raise (TemplateSyntaxError (CountExpectsOne tag)))
  /\ (forall token tokens,
        o = no_options -> length kw <> 1 ->
        do_block_translate (tag :: "count" :: rest) token tokens =
        Raise (TemplateSyntaxError (CountExpectsOne tag)))
  /\ (forall o',
        parse_options_from tag o ("count" :: rest) = Ok o' ->
        exists name e, kw = [(name, e)] /\
                       counter_binding o' = Ok (Some name, Some e))
  /\ (forall b1 b2 key v1 v2 e1 e2,
        kwarg_re_match b1 = Some (Some key, v1) ->
        kwarg_re_match b2 = Some (Some key, v2) ->
        compile_filter v1 = Ok e1 ->
        compile_filter v2 = Ok e2 ->
        token_kwargs [b1; b2] true = Ok ([(key, e2)], [])).
Proof.
  intros Hin Hkw.
  assert (parse_options_from tag o ("count" :: rest) =
          (if (length kw =? 1)%nat then parse_options_from tag (set_count o kw) rest'
           else Raise (TemplateSyntaxError (CountExpectsOne tag)))) as Hloop.
  { rewrite parse_options_from_cons. unfold parse_option. rewrite Hin.
    cbn [String.eqb Ascii.eqb Bool.eqb]. rewrite Hkw. cbn.
    by destruct (length kw =? 1)%nat. }
  split; [done|]. split; [|split].
  - intros token tokens -> Hne. apply do_block_translate_raise.
    unfold parse_options. rewrite Hloop.
    destruct (Nat.eqb_spec (length kw) 1); done.
  - intros o' Ho'. rewrite Hloop in Ho'.
    destruct (Nat.eqb_spec (length kw) 1) as [Hlen|]; [|done].
    destruct kw as [|[name e] [|]]; try done.
    exists name, e. split; [done|].
    apply (parse_options_from_keeps tag (length rest')) in Ho' as [Hc _]; [|done].
    unfold counter_binding. by rewrite (Hc [(name, e)]).
  - apply repeated_keyword_collapses.
Qed.

(** C4 (as amended): when the loop over the options meets [with], the
    keyword bindings that follow are collected; with no binding at all the
    tag is rejected with the "needs at least one keyword argument" syntax
    error, which is then the result of [do_block_translate]; with one or more
    the loop goes on and, when parsing the options succeeds, these bindings
    are the extra context of the node. *)
Theorem with_needs_a_binding tag o rest kw rest' :
  option_in "with" o = false ->
  token_kwargs rest true = Ok (kw, rest') ->
  parse_options_from tag o ("with" :: rest) =
    match kw with
    | [] => Raise (TemplateSyntaxError (WithNeedsKeyword tag))
    | _ => parse_options_from tag (set_with o kw) rest'
    end
  /\ (forall token tokens,
        o = no_options -> kw = [] ->
        do_block_translate (tag :: "with" :: rest) token tokens =
        Raise (TemplateSyntaxError (WithNeedsKeyword tag)))
  /\ (forall o' cb singular plural,
        parse_options_from tag o ("with" :: rest) = Ok o' ->
        kw <> [] /\
        BlockTranslateNode.extra_context (make_node tag o' cb singular plural) = kw).
Proof.
  intros Hin Hkw.
  assert (parse_options_from tag o ("with" :: rest) =
          match kw with
          | [] => Raise (TemplateSyntaxError (WithNeedsKeyword tag))
          | _ => parse_options_from tag (set_with o kw) rest'
          end) as Hloop.
  { rewrite parse_options_from_cons. unfold parse_option. rewrite Hin.
    cbn [String.eqb Ascii.eqb Bool.eqb]. rewrite Hkw. cbn. by destruct kw. }
  split; [done|]. split.
  - intros token tokens -> ->. apply do_block_translate_raise.
    unfold parse_options. by rewrite Hloop.
  - intros o' cb singular plural Ho'. rewrite Hloop in Ho'.
    destruct kw as [|entry kw]; [done|]. split; [done|].
    apply (parse_options_from_keeps tag (length rest')) in Ho' as [_ Hw]; [|done].
    cbn. by rewrite (Hw (entry :: kw)).
Qed.

(** C2 (as amended): for a block whose bodies each end on a token that is
    neither text nor variable, the parser looks only at the stripped
    contents of that token, not at its kind.  Without a count binding the
    token that ends the singular body must read [end<tag>], so a [plural]
    separator is rejected there.  With a count binding the token that ends
    the singular body must read [plural], or parsing fails with the syntax
    error that names the tag, and the token that ends the plural body must
    read [end<tag>].  A wrong end token fails with the syntax error that
    carries the contents of the token seen. *)
Theorem bodies_end_on_contents tag args token o cb singular sep rest :
  parse_options tag args = Ok o ->
  counter_binding o = Ok cb ->
  Forall (fun t => is_body_token t = true) singular ->
  is_body_token sep = false ->
  (counts cb.1 cb.2 = false ->
     do_block_translate (tag :: args) token (singular ++ sep :: rest) =
     if String.eqb (strip (contents sep)) (String.append "end" tag)
     then Ok (make_node tag o cb singular [], rest)
     else Raise (TemplateSyntaxError (OtherBlockTagsSeen tag (contents sep))))
  /\ (counts cb.1 cb.2 = false ->
      strip (contents sep) = "plural" ->
      do_block_translate (tag :: args) token (singular ++ sep :: rest) =
      Raise (TemplateSyntaxError (OtherBlockTagsSeen tag (contents sep))))
  /\ (counts cb.1 cb.2 = true ->
      String.eqb (strip (contents sep)) "plural" = false ->
      do_block_translate (tag :: args) token (singular ++ sep :: rest) =
      Raise (TemplateSyntaxError (OtherBlockTags tag)))
  /\ (counts cb.1 cb.2 = true ->
      String.eqb (strip (contents sep)) "plural" = true ->
      forall plural stop rest',
        rest = plural ++ stop :: rest' ->
        Forall (fun t => is_body_token t = true) plural ->
        is_body_token stop = false ->
        do_block_translate (tag :: args) token (singular ++ sep :: rest) =
        if String.eqb (strip (contents stop)) (String.append "end" tag)
        then Ok (make_node tag o cb singular plural, rest')
        else Raise (TemplateSyntaxError (OtherBlockTagsSeen tag (contents stop)))).
Proof.
  intros Ho Hcb Hs Hsep.
  assert (forall pl,
    read_plural tag (counts cb.1 cb.2) sep rest = pl ->
    do_block_translate (tag :: args) token (singular ++ sep :: rest) =
    match pl with
    | Ok (plural, token', tokens') =>
        if negb (String.eqb (strip (contents token')) (String.append "end" tag))
        then Raise (TemplateSyntaxError (OtherBlockTagsSeen tag (contents token')))
        else Ok (make_node tag o cb singular plural, tokens')
    | Raise e => Raise e
    end) as Hshape.
  { intros pl <-. unfold do_block_translate. cbn [hd tl]. rewrite Ho. cbn.
    rewrite Hcb. cbn. rewrite (read_body_app singular sep rest token Hs Hsep).
    destruct (read_plural tag (counts cb.1 cb.2) sep rest) as [[[pl tk] tks]|]; done. }
  repeat split.
  - intros Hc. rewrite (Hshape _ eq_refl). unfold read_plural. rewrite Hc.
    by destruct (String.eqb (strip (contents sep)) (String.append "end" tag)).
  - intros Hc Hp. rewrite (Hshape _ eq_refl). unfold read_plural. rewrite Hc.
    rewrite Hp. reflexivity.
  - intros Hc Hp. rewrite (Hshape _ eq_refl). unfold read_plural.
    by rewrite Hc, Hp.
  - intros Hc Hp plural stop rest' -> Hpl Hstop.
    rewrite (Hshape _ eq_refl). unfold read_plural. rewrite Hc, Hp. cbn [negb].
    rewrite (read_body_app plural stop rest' sep Hpl Hstop).
    by destruct (String.eqb (strip (contents stop)) (String.append "end" tag)).
Qed.

End Facts.

End ParserFacts.

(** ** The parser on concrete tags *)

Module ParserCases.
Import PyStr PyDict PyFormat Django Parser Observe Example.

(** X19 at [{% blocktranslate count n=items trimmed %}]: one entry, the
    loop goes on to [trimmed]. *)
Lemma count_needs_one_entry_witness :
  option_in "count" no_options = false
  /\ token_kwargs ["n=items"; "trimmed"] true
     = Ok ([("n", Lookup_var "items")], ["trimmed"])
  /\ parse_options_from "blocktranslate" no_options ["count"; "n=items"; "trimmed"]
     = Ok (set_trimmed (set_count no_options [("n", Lookup_var "items")]) true).
Proof.
  split; [reflexivity|]. split; [reflexivity|].
  destruct (ParserFacts.count_needs_one_entry (engine := engine)
              "blocktranslate" no_options ["n=items"; "trimmed"]
              [("n", Lookup_var "items")] ["trimmed"] eq_refl eq_refl) as [H _].
  rewrite H. reflexivity.
Defined.

(** C3: the check "expected exactly one keyword argument" misses a name
    that is bound twice.  Two bindings after [count] with different names
    are rejected, as are no binding at all and three bindings; but at
    [{% blocktranslate count n=a n=b %}] both bindings are consumed, the
    mapping they are collected in keeps one entry for [n], its length is 1,
    and parsing succeeds with the counter bound to the second expression,
    the first one dropped. *)
Lemma count_accepts_repeated_name :
  token_kwargs ["n=a"; "n=b"] true = Ok ([("n", Lookup_var "b")], [])
  /\ do_block_translate ["blocktranslate"; "count"; "n=a"; "n=b"] opening plural_block
     = Ok (counting_node (Lookup_var "b") [text_token "many"], [])
  /\ do_block_translate ["blocktranslate"; "count"; "n=a"; "m=b"] opening plural_block
     = Raise (TemplateSyntaxError (CountExpectsOne "blocktranslate"))
  /\ do_block_translate ["blocktranslate"; "count"] opening plural_block
     = Raise (TemplateSyntaxError (CountExpectsOne "blocktranslate"))
  /\ do_block_translate ["blocktranslate"; "count"; "n=a"; "m=b"; "n=c"] opening
       plural_block
     = Raise (TemplateSyntaxError (CountExpectsOne "blocktranslate")).
Proof. repeat split; reflexivity. Qed.

(** C4 at [{% blocktranslate with %}]: no binding, the tag is rejected. *)
Lemma with_needs_a_binding_witness :
  option_in "with" no_options = false
  /\ token_kwargs [] true = Ok ([], [])
  /\ parse_options_from "blocktranslate" no_options ["with"]
     = Raise (TemplateSyntaxError (WithNeedsKeyword "blocktranslate")).
Proof.
  split; [reflexivity|]. split; [reflexivity|].
  destruct (ParserFacts.with_needs_a_binding (engine := engine)
              "blocktranslate" no_options [] [] [] eq_refl eq_refl) as [H _].
  rewrite H. reflexivity.
Defined.

(** C4 as stated fails at [{% blocktranslate with %}hello{% endblocktranslate %}]:
    parsing does not succeed. *)
Lemma with_without_bindings_rejected :
  do_block_translate ["blocktranslate"; "with"] opening plain_block
  = Raise (TemplateSyntaxError (WithNeedsKeyword "blocktranslate")).
Proof. reflexivity. Qed.

(** C2 at [{% blocktranslate count n=items %}one{% plural %}many{% endblocktranslate %}]. *)
Lemma bodies_end_on_contents_witness :
  parse_options "blocktranslate" ["count"; "n=items"]
  = Ok (set_count no_options [("n", Lookup_var "items")])
  /\ counter_binding (set_count no_options [("n", Lookup_var "items")])
     = Ok (Some "n", Some (Lookup_var "items"))
  /\ Forall (fun t => is_body_token t = true) [text_token "one"]
  /\ is_body_token (block_token "plural") = false
  /\ do_block_translate ["blocktranslate"; "count"; "n=items"] opening plural_block
     = Ok (counting_node (Lookup_var "items") [text_token "many"], []).
Proof.
  split; [reflexivity|]. split; [reflexivity|].
  assert (Forall (fun t => is_body_token t = true) [text_token "one"]) as F1
    by (constructor; [reflexivity | constructor]).
  assert (Forall (fun t => is_body_token t = true) [text_token "many"]) as F2
    by (constructor; [reflexivity | constructor]).
  split; [exact F1|]. split; [reflexivity|].
  destruct (ParserFacts.bodies_end_on_contents (engine := engine)
              "blocktranslate" ["count"; "n=items"] opening
              (set_count (engine := engine) no_options [("n", Lookup_var "items")])
              (Some "n", Some (Lookup_var "items"))
              [text_token "one"] (block_token "plural")
              [text_token "many"; block_token "endblocktranslate"]
              eq_refl eq_refl F1 eq_refl) as (_ & _ & _ & H).
  exact (H eq_refl eq_refl [text_token "many"] (block_token "endblocktranslate") []
           eq_refl F2 eq_refl).
Defined.

(** C2 as stated fails at
    [{% blocktranslate count n=items %}one{# plural #}many{# endblocktranslate #}]:
    the token that ends the singular body and the token that ends the
    plural body are comments, not tags, and parsing succeeds. *)
Lemma comments_end_bodies :
  do_block_translate ["blocktranslate"; "count"; "n=items"] opening commented_block
  = Ok (counting_node (Lookup_var "items") [text_token "many"], [])
  /\ ~ is_tag "plural" (comment_token "plural")
  /\ ~ is_tag "endblocktranslate" (comment_token "endblocktranslate").
Proof.
  split; [reflexivity|]. split; intros [H _]; discriminate H.
Qed.

End ParserCases.

(** ** The renderers *)

Module RenderFacts.
Import PyStr PyDict PyFormat Django Observe.
Import BlockTranslateNode.

Section Facts.
Context {catalog : Catalog} {engine : TemplateEngine} {py : PyText}.

Lemma bind_run {A B} (m : M A) (f : A -> M B) w :
  (m ≫= f) w =
  match m w with
  | (Ok a, w') => f a w'
  | (Raise e, w') => (Raise e, w')
  end.
Proof. reflexivity. Qed.

Lemma bind_ok {A B} (m : M A) (f : A -> M B) w b w' :
  (m ≫= f) w = (Ok b, w') ->
  exists a w1, m w = (Ok a, w1) /\ f a w1 = (Ok b, w').
Proof.
  rewrite bind_run. destruct (m w) as [[a|e] w1]; [|done]. eauto.
Qed.

Lemma world_eta w :
  {| context := {| dicts := dicts (context w);
                   string_if_invalid := string_if_invalid (context w) |};
     active := active w; trace := trace w |} = w.
Proof. by destruct w as [[] ? ?]. Qed.

Lemma log_nil w : log [] w = w.
Proof. destruct w. unfold log. cbn. by rewrite app_nil_r. Qed.

Lemma log_log e1 e2 w : log e2 (log e1 w) = log (e1 ++ e2) w.
Proof. unfold log. cbn. by rewrite app_assoc. Qed.

(** Resolving and rendering read the world and leave it as it is. *)
Lemma resolve_in_context_run e w :
  resolve_in_context e w = (resolve e (context w), w).
Proof. reflexivity. Qed.

Lemma resolve_items_world items : forall scope w,
  (resolve_items items scope w).2 = w.
Proof.
  induction items as [|[var val] items IH]; intros scope w; [done|].
  cbn [resolve_items]. rewrite bind_run, resolve_in_context_run.
  destruct (resolve val (context w)); [apply IH | done].
Qed.

Lemma render_value_world key w : (render_value key w).2 = w.
Proof.
  unfold render_value. rewrite bind_run. cbn.
  destruct (context_contains (context w) key).
  - rewrite bind_run. unfold lift. by destruct (context_get (context w) key).
  - destruct (contains "%s" (string_if_invalid (context w))); [|done].
    by destruct (py_format (string_if_invalid (context w)) (ArgStr key)).
Qed.

Lemma render_values_world vars : forall data w,
  (render_values vars data w).2 = w.
Proof.
  induction vars as [|v vars IH]; intros data w; [done|].
  cbn [render_values]. rewrite bind_run.
  pose proof (render_value_world v w) as Hw.
  destruct (render_value v w) as [[rendered|e] w1]; cbn in Hw; subst; [apply IH|done].
Qed.

Ltac run_primitives H :=
  unfold call_catalog, context_update, context_setitem, context_pop, emit, lift,
    raise, get_language, get_context, set_dicts in H;
  unfold mbind, M_bind, mret, M_ret in H; cbn in H.

(** A successful first part of [render]: what was resolved, and the world it
    leaves, which is the initial world with four or three events traced. *)
Lemma lookup_message_ok self w result data w1 :
  lookup_message self w = (Ok (result, data), w1) ->
  exists mc scope,
    resolved_context self (context w) = Ok mc /\
    resolve_items (extra_context self) ∅ w = (Ok scope, w) /\
    match pluralizes self with
    | Some (ptoks, name, e) =>
        exists number,
          resolve e (pushed scope (context w)) = Ok number /\
          w1 = log [Update scope; SetItem name number;
                    Lookup (active w) (plural_call self mc ptoks number); Pop] w
    | None =>
        w1 = log [Update scope; Lookup (active w) (singular_call self mc); Pop] w
    end.
Proof.
  unfold lookup_message. intros H.
  apply bind_ok in H as (mc & w0 & Hmc & H).
  assert (w0 = w /\ resolved_context self (context w) = Ok mc) as [-> Hrc].
  { unfold resolved_context. destruct (message_context self) as [e|].
    - rewrite bind_run, resolve_in_context_run in Hmc.
      destruct (resolve e (context w)); inversion Hmc; subst; split; reflexivity.
    - inversion Hmc; subst; split; reflexivity. }
  apply bind_ok in H as (scope & w0 & Hsc & H).
  pose proof (resolve_items_world (extra_context self) ∅ w) as Hw0.
  rewrite Hsc in Hw0. cbn in Hw0. subst w0.
  exists mc, scope. split; [done|]. split; [done|].
  apply bind_ok in H as ([] & w2 & Hup & H).
  destruct (render_token_list self (singular self)) as [msg vars] eqn:Esing.
  apply bind_ok in H as (looked & w3 & Hlook & H).
  apply bind_ok in H as (data' & w4 & Hdata & H).
  pose proof (render_values_world looked.2 [] w3) as Hw4.
  rewrite Hdata in Hw4. cbn in Hw4. subst w4.
  apply bind_ok in H as ([] & w5 & Hpop & H).
  inversion H; subst; clear H Hmc Hsc Hdata.
  unfold plural_call, singular_call, message_of. rewrite Esing. cbn [fst].
  destruct w as [[ds sii] act tr]. run_primitives Hup. inversion Hup; subst w2; clear Hup.
  destruct (pluralizes self) as [[[ptoks name] e]|].
  - apply bind_ok in Hlook as (number & w6 & Hnum & Hlook).
    rewrite resolve_in_context_run in Hnum. inversion Hnum as [[Hnum' Hw6]].
    subst w6; clear Hnum.
    apply bind_ok in Hlook as ([] & w7 & Hset & Hlook).
    run_primitives Hset. inversion Hset; subst w7; clear Hset.
    destruct (render_token_list self ptoks) as [pmsg pvars] eqn:Eplur.
    apply bind_ok in Hlook as (res & w8 & Hcall & Hlook).
    inversion Hlook; subst; clear Hlook.
    exists number. split; [exact Hnum'|]. cbn [fst].
    run_primitives Hcall.
    destruct (has_context mc); cbn in Hcall;
      match type of Hcall with
      | (?r, _) = _ => destruct r; inversion Hcall; subst; clear Hcall
      end.
    all: run_primitives Hpop.
    all: destruct ds as [|d ds]; [done|]; inversion Hpop; subst; clear Hpop.
    all: unfold log; cbn; by rewrite <- !app_assoc.
  - apply bind_ok in Hlook as (res & w8 & Hcall & Hlook).
    inversion Hlook; subst; clear Hlook.
    run_primitives Hcall.
    destruct (has_context mc); cbn in Hcall;
      match type of Hcall with
      | (?r, _) = _ => destruct r; inversion Hcall; subst; clear Hcall
      end.
    all: run_primitives Hpop.
    all: destruct ds as [|d ds]; [done|]; inversion Hpop; subst; clear Hpop.
    all: unfold log; cbn; by rewrite <- !app_assoc.
Qed.

(** The first part of [render] succeeds only on a context that has a scope:
    the pop refuses to remove the last one. *)
Lemma lookup_message_nonempty self w r w1 :
  lookup_message self w = (Ok r, w1) -> dicts (context w) <> [].
Proof.
  unfold lookup_message. intros H Hd.
  apply bind_ok in H as (mc & w0 & Hmc & H).
  assert (w0 = w) as ->.
  { destruct (message_context self) as [e|].
    - rewrite bind_run, resolve_in_context_run in Hmc.
      destruct (resolve e (context w)); by inversion Hmc.
    - by inversion Hmc. }
  apply bind_ok in H as (scope & w0 & Hsc & H).
  pose proof (resolve_items_world (extra_context self) ∅ w) as Hw0.
  rewrite Hsc in Hw0. cbn in Hw0. subst w0.
  apply bind_ok in H as ([] & w2 & Hup & H).
  destruct (render_token_list self (singular self)) as [msg vars].
  apply bind_ok in H as (looked & w3 & Hlook & H).
  apply bind_ok in H as (data' & w4 & Hdata & H).
  pose proof (render_values_world looked.2 [] w3) as Hw4.
  rewrite Hdata in Hw4. cbn in Hw4. subst w4.
  apply bind_ok in H as ([] & w5 & Hpop & _).
  destruct w as [[ds sii] act tr]. cbn in Hd. subst ds.
  run_primitives Hup. inversion Hup; subst w2; clear Hup.
  destruct (pluralizes self) as [[[ptoks name] e]|].
  - apply bind_ok in Hlook as (number & w6 & Hnum & Hlook).
    rewrite resolve_in_context_run in Hnum. inversion Hnum; subst w6; clear Hnum.
    apply bind_ok in Hlook as ([] & w7 & Hset & Hlook).
    run_primitives Hset. inversion Hset; subst w7; clear Hset.
    destruct (render_token_list self ptoks) as [pmsg pvars].
    apply bind_ok in Hlook as (res & w8 & Hcall & Hlook).
    inversion Hlook; subst; clear Hlook.
    run_primitives Hcall.
    destruct (has_context mc); cbn in Hcall;
      match type of Hcall with
      | (?r, _) = _ => destruct r; inversion Hcall; subst; clear Hcall
      end.
    all: by run_primitives Hpop.
  - apply bind_ok in Hlook as (res & w8 & Hcall & Hlook).
    inversion Hlook; subst; clear Hlook.
    run_primitives Hcall.
    destruct (has_context mc); cbn in Hcall;
      match type of Hcall with
      | (?r, _) = _ => destruct r; inversion Hcall; subst; clear Hcall
      end.
    all: by run_primitives Hpop.
Qed.

(** What a successful first part of [render] adds to the trace: the push of
    the scope of the [with] bindings, then one lookup in the active language
    and one pop, and no language override. *)
Lemma lookup_message_trace self w result data w1 :
  lookup_message self w = (Ok (result, data), w1) ->
  exists scope events call,
    resolve_items (extra_context self) ∅ w = (Ok scope, w) /\
    w1 = log (Update scope :: events) w /\
    List.filter is_lookup events = [Lookup (active w) call] /\
    count is_update events = 0 /\ count is_pop events = 1 /\
    count is_override events = 0.
Proof.
  intros H. apply lookup_message_ok in H as (mc & scope & _ & Hsc & H).
  destruct (pluralizes self) as [[[ptoks name] e]|].
  - destruct H as (number & _ & ->). by eexists _, _, _.
  - subst w1. by eexists _, _, _.
Qed.

Lemma deliver_run self s w :
  deliver self s w =
  match asvar_name self with
  | Some name =>
      match dicts (context w) with
      | [] => (Raise IndexError, w)
      | _ :: _ => (Ok EmptyString, assigned name (VStr s) w)
      end
  | None => (Ok s, w)
  end.
Proof.
  unfold deliver, asvar_name. destruct (asvar self) as [name|]; [|done].
  destruct (String.eqb name EmptyString); [done|].
  unfold context_setitem, get_context, emit, set_dicts, raise, assigned.
  unfold mbind, M_bind, mret, M_ret. cbn.
  destruct (dicts (context w)); reflexivity.
Qed.

Lemma render_fuel_unfold fuel self nested w :
  render_fuel (S fuel) self nested w =
  (looked_up ← lookup_message self;
   result ←
     match py_format looked_up.1 (ArgDict looked_up.2) with
     | FmtOk formatted => mret formatted
     | FmtTypeError => raise TypeError
     | FmtKeyError _ | FmtValueError =>
         if nested then
           raise (TemplateSyntaxError
                    (UnableToFormat (tag_name self) looked_up.1 looked_up.2))
         else with_override None (render_fuel fuel self true)
     end;
   deliver self result) w.
Proof. reflexivity. Qed.

(** With [nested=True] a render is the final attempt. *)
Lemma render_nested_final self fuel w :
  render_fuel (S fuel) self true w = final_attempt self w.
Proof.
  unfold final_attempt. rewrite render_fuel_unfold, !bind_run.
  destruct (lookup_message self w) as [[[result data]|e] w1]; [|done].
  rewrite bind_run. cbn [fst snd].
  by destruct (py_format result (ArgDict data)).
Qed.

(** The recursion of [render] is one level deep: two steps of fuel are
    enough and more change nothing. *)
Lemma render_fuel_enough self nested fuel w :
  render_fuel (S (S fuel)) self nested w = render self nested w.
Proof.
  unfold render. rewrite (render_fuel_unfold (S fuel)), (render_fuel_unfold 1).
  rewrite !bind_run.
  destruct (lookup_message self w) as [[[result data]|e] w1]; [|done].
  rewrite !bind_run. cbn [fst snd].
  destruct (py_format result (ArgDict data)); try done.
  all: destruct nested; [done|].
  all: unfold with_override; by rewrite !render_nested_final.
Qed.



Lemma count_app kind (a b : list event) :
  count kind (a ++ b) = count kind a + count kind b.
Proof. unfold count. by rewrite List.filter_app, length_app. Qed.

Lemma count_cons kind e (l : list event) :
  count kind (e :: l) = (if kind e then 1 else 0) + count kind l.
Proof. unfold count. cbn. by destruct (kind e). Qed.

Ltac solve_count :=
  rewrite ?count_cons, ?count_app;
  repeat match goal with H : count _ _ = _ |- _ => rewrite H end;
  cbn; lia.

Lemma deliver_ok self s w out w' :
  deliver self s w = (Ok out, w') ->
  match asvar_name self with
  | Some name =>
      exists top below, dicts (context w) = top :: below /\
                        out = EmptyString /\ w' = assigned name (VStr s) w
  | None => out = s /\ w' = w
  end.
Proof.
  rewrite deliver_run. destruct (asvar_name self) as [name|].
  - destruct (dicts (context w)) as [|top below] eqn:E; [done|].
    inversion 1; subst. by exists top, below.
  - by inversion 1.
Qed.

(** C8 (as amended): a successful render leaves the context as it found
    it: same depth, same scopes, same [string_if_invalid], same active
    language, except that the top scope has the [asvar] name assigned when
    the node has one.  Each attempt pushes one scope, the one holding the
    resolved [with] bindings, and pops it before substituting; a render
    makes one attempt, or two when it takes the retry: pushes and pops are
    each one more than the language overrides, of which there is at most
    one. *)
Theorem render_frames_context self w out w' :
  render self false w = (Ok out, w') ->
  exists scope events,
    resolve_items (extra_context self) ∅ w = (Ok scope, w) /\
    trace w' = trace w ++ Update scope :: events /\
    count is_update (Update scope :: events) = 1 + count is_override events /\
    count is_pop events = 1 + count is_override events /\
    count is_override events <= 1 /\
    active w' = active w /\
    string_if_invalid (context w') = string_if_invalid (context w) /\
    match asvar_name self with
    | Some name =>
        exists v top below,
          dicts (context w) = top :: below /\
          dicts (context w') = <[name := v]> top :: below
    | None => dicts (context w') = dicts (context w)
    end.
Proof.
  unfold render. rewrite (render_fuel_unfold 1), bind_run.
  destruct (lookup_message self w) as [[[result data]|e] w1] eqn:H1; [|done].
  pose proof (lookup_message_trace _ _ _ _ _ H1)
    as (sc1 & ev1 & call & Hsc & Hw1 & _ & Hu1 & Hp1 & Ho1).
  cbn [fst snd]. rewrite bind_run. intros H.
  exists sc1.
  destruct (py_format result (ArgDict data)) eqn:Hf; [| | |done].
  - (* the first substitution succeeds *)
    cbn in H. apply deliver_ok in H.
    destruct (asvar_name self) as [name|].
    + destruct H as (top & below & Hd & -> & ->).
      exists (ev1 ++ [SetItem name (VStr s)]). subst w1.
      split; [done|]. split; [cbn; by rewrite <- app_assoc|].
      split; [solve_count|]. split; [solve_count|]. split; [solve_count|].
      split; [done|]. split; [done|].
      exists (VStr s), top, below. cbn in Hd. cbn. by rewrite Hd.
    + destruct H as [-> ->]. exists ev1. subst w1.
      split; [done|]. split; [done|].
      split; [solve_count|]. split; [solve_count|]. split; [solve_count|].
      done.
  - (* KeyError: the retry *)
    unfold with_override in H. rewrite render_nested_final in H.
    unfold final_attempt in H. rewrite bind_run in H.
    destruct (lookup_message self (enter_override None w1))
      as [[[result' data']|e'] w2] eqn:H2; [|done].
    pose proof (lookup_message_trace _ _ _ _ _ H2)
      as (sc2 & ev2 & call' & _ & Hw2 & _ & Hu2 & Hp2 & Ho2).
    cbn [fst snd] in H.
    destruct (py_format result' (ArgDict data')) eqn:Hf'; try done.
    destruct (deliver self s w2) as [[r|e'] w3] eqn:H3; [|done].
    apply deliver_ok in H3. apply deliver_ok in H.
    destruct (asvar_name self) as [name|].
    + destruct H3 as (top & below & Hd & -> & ->).
      destruct H as (top' & below' & Hd' & -> & ->).
      exists (ev1 ++ [OverrideEnter None] ++ [Update sc2] ++ ev2
              ++ [SetItem name (VStr s)] ++ [OverrideExit (active w1)]
              ++ [SetItem name (VStr EmptyString)]).
      subst w2 w1.
      split; [done|]. split; [cbn; by rewrite <- !app_assoc|].
      split; [solve_count|]. split; [solve_count|]. split; [solve_count|].
      split; [done|]. split; [done|].
      exists (VStr EmptyString), top, below. cbn in Hd. cbn. rewrite Hd.
      split; [done|]. by rewrite insert_insert_eq.
    + destruct H3 as [-> ->]. destruct H as [-> ->].
      exists (ev1 ++ [OverrideEnter None] ++ [Update sc2] ++ ev2
              ++ [OverrideExit (active w1)]).
      subst w2 w1.
      split; [done|]. split; [cbn; by rewrite <- !app_assoc|].
      split; [solve_count|]. split; [solve_count|]. split; [solve_count|].
      done.
  - (* ValueError: the retry *)
    unfold with_override in H. rewrite render_nested_final in H.
    unfold final_attempt in H. rewrite bind_run in H.
    destruct (lookup_message self (enter_override None w1))
      as [[[result' data']|e'] w2] eqn:H2; [|done].
    pose proof (lookup_message_trace _ _ _ _ _ H2)
      as (sc2 & ev2 & call' & _ & Hw2 & _ & Hu2 & Hp2 & Ho2).
    cbn [fst snd] in H.
    destruct (py_format result' (ArgDict data')) eqn:Hf'; try done.
    destruct (deliver self s w2) as [[r|e'] w3] eqn:H3; [|done].
    apply deliver_ok in H3. apply deliver_ok in H.
    destruct (asvar_name self) as [name|].
    + destruct H3 as (top & below & Hd & -> & ->).
      destruct H as (top' & below' & Hd' & -> & ->).
      exists (ev1 ++ [OverrideEnter None] ++ [Update sc2] ++ ev2
              ++ [SetItem name (VStr s)] ++ [OverrideExit (active w1)]
              ++ [SetItem name (VStr EmptyString)]).
      subst w2 w1.
      split; [done|]. split; [cbn; by rewrite <- !app_assoc|].
      split; [solve_count|]. split; [solve_count|]. split; [solve_count|].
      split; [done|]. split; [done|].
      exists (VStr EmptyString), top, below. cbn in Hd. cbn. rewrite Hd.
      split; [done|]. by rewrite insert_insert_eq.
    + destruct H3 as [-> ->]. destruct H as [-> ->].
      exists (ev1 ++ [OverrideEnter None] ++ [Update sc2] ++ ev2
              ++ [OverrideExit (active w1)]).
      subst w2 w1.
      split; [done|]. split; [cbn; by rewrite <- !app_assoc|].
      split; [solve_count|]. split; [solve_count|]. split; [solve_count|].
      done.
Qed.

(** *** The result and [asvar] *)

(** X17: without [asvar] the formatted result of the first attempt is
    emitted; with [asvar] it is assigned and the tag emits the empty
    string. *)
Lemma first_attempt_delivers self w result data w1 s :
  lookup_message self w = (Ok (result, data), w1) ->
  py_format result (ArgDict data) = FmtOk s ->
  render self false w =
  match asvar_name self with
  | Some name =>
      match dicts (context w) with
      | [] => (Raise IndexError, w1)
      | _ :: _ => (Ok EmptyString, assigned name (VStr s) w1)
      end
  | None => (Ok s, w1)
  end.
Proof.
  intros H1 Hf. unfold render. rewrite (render_fuel_unfold 1), bind_run, H1.
  cbn [fst snd]. rewrite bind_run, Hf. cbn [mret M_ret]. rewrite deliver_run.
  apply lookup_message_trace in H1 as (sc & ev & call & _ & -> & _).
  reflexivity.
Qed.

(** X18: on the retry the second attempt has already assigned the
    formatted result to [asvar] and emitted the empty string; the first
    attempt then assigns that empty string to [asvar]. *)
Lemma retry_empties_asvar self w result data w1 result' data' w2 s name :
  lookup_message self w = (Ok (result, data), w1) ->
  caught (py_format result (ArgDict data)) = true ->
  lookup_message self (enter_override None w1) = (Ok (result', data'), w2) ->
  py_format result' (ArgDict data') = FmtOk s ->
  asvar_name self = Some name ->
  render self false w =
  (Ok EmptyString,
   assigned name (VStr EmptyString)
     (exit_override (active w) (assigned name (VStr s) w2))).
Proof.
  intros H1 Hc H2 Hf Hn.
  pose proof (lookup_message_trace _ _ _ _ _ H1) as (sc1 & ev1 & c1 & _ & Hw1 & _).
  pose proof (lookup_message_trace _ _ _ _ _ H2) as (sc2 & ev2 & c2 & _ & Hw2 & _).
  destruct (dicts (context w)) as [|top below] eqn:Hd;
    [by apply lookup_message_nonempty in H1|].
  unfold render. rewrite (render_fuel_unfold 1), bind_run, H1.
  cbn [fst snd]. rewrite bind_run.
  assert (with_override None (render_fuel 1 self true) w1 =
          (Ok EmptyString, exit_override (active w) (assigned name (VStr s) w2))) as Hr.
  { unfold with_override. rewrite render_nested_final. unfold final_attempt.
    rewrite bind_run, H2. cbn [fst snd]. rewrite Hf, deliver_run, Hn.
    subst w2 w1. cbn. by rewrite Hd. }
  destruct (py_format result (ArgDict data)); try done.
  all: rewrite Hr, deliver_run, Hn; subst w2 w1; cbn; by rewrite Hd.
Qed.

(** *** What a render may add to the trace, whatever its outcome *)

Lemma appends_pure {A} P (m : M A) :
  (forall w, trace (m w).2 = trace w) -> appends P m.
Proof.
  intros H w. exists []. rewrite H, app_nil_r. split; [done | constructor].
Qed.

Lemma appends_same {A} P (m : M A) : (forall w, (m w).2 = w) -> appends P m.
Proof. intros H. apply appends_pure. intros w. by rewrite H. Qed.

Lemma appends_bind {A B} P (m : M A) (f : A -> M B) :
  appends P m -> (forall a, appends P (f a)) -> appends P (m ≫= f).
Proof.
  intros Hm Hf w. rewrite bind_run. destruct (Hm w) as (ev1 & Ht1 & HP1).
  destruct (m w) as [[a|e] w1]; cbn in Ht1.
  - destruct (Hf a w1) as (ev2 & Ht2 & HP2). exists (ev1 ++ ev2).
    rewrite Ht2, Ht1, app_assoc. split; [done|]. by apply Forall_app.
  - by exists ev1.
Qed.

Lemma appends_emit P e : P e -> appends P (emit e).
Proof. intros H w. exists [e]. split; [done|]. by constructor. Qed.

Lemma appends_update P scope :
  P (Update scope) -> appends P (context_update scope).
Proof.
  intros H. unfold context_update.
  apply appends_bind; [by apply appends_pure|]. intros c.
  apply appends_bind; [by apply appends_emit|]. intros _. by apply appends_pure.
Qed.

Lemma appends_setitem P key v :
  P (SetItem key v) -> appends P (context_setitem key v).
Proof.
  intros H. unfold context_setitem.
  apply appends_bind; [by apply appends_pure|]. intros c.
  destruct (dicts c); [by apply appends_pure|].
  apply appends_bind; [by apply appends_emit|]. intros _. by apply appends_pure.
Qed.

Lemma appends_pop P : P Pop -> appends P context_pop.
Proof.
  intros H. unfold context_pop.
  apply appends_bind; [by apply appends_pure|]. intros c.
  destruct (dicts c) as [|? [|? ?]]; try by apply appends_pure.
  apply appends_bind; [by apply appends_emit|]. intros _. by apply appends_pure.
Qed.

Lemma appends_call P call :
  (forall language, P (Lookup language call)) -> appends P (call_catalog call).
Proof.
  intros H. unfold call_catalog.
  intros w. rewrite bind_run. cbn. exists [Lookup (active w) call].
  split; [|by constructor].
  rewrite bind_run. cbn. unfold lift. by destruct call.
Qed.

Lemma appends_override {A} P language (body : M A) :
  appends P body -> P (OverrideEnter language) ->
  (forall old, P (OverrideExit old)) ->
  appends P (with_override language body).
Proof.
  intros Hb He Hx w. unfold with_override.
  destruct (Hb (enter_override language w)) as (ev & Ht & HP).
  destruct (body (enter_override language w)) as [r w1]. cbn in *.
  exists ([OverrideEnter language] ++ ev ++ [OverrideExit (active w)]).
  rewrite Ht, <- !app_assoc. split; [done|].
  apply Forall_app. split; [by constructor|].
  apply Forall_app. split; [done | by constructor].
Qed.

Lemma pluralizes_empty self : plural self = Some [] -> pluralizes self = None.
Proof. unfold pluralizes. by intros ->. Qed.

Lemma lookup_message_without_counter self w :
  plural self = Some [] ->
  lookup_message self w = lookup_message (without_counter self) w.
Proof.
  intros Hp. unfold lookup_message.
  rewrite (pluralizes_empty self Hp).
  assert (pluralizes (without_counter self) = None) as ->
    by (unfold pluralizes; cbn; by rewrite Hp).
  reflexivity.
Qed.

End Facts.

End RenderFacts.

(** ** Percent signs *)

Module PercentFacts.
Import PyStr PyDict PyFormat Django Observe.

Section Facts.
Context {catalog : Catalog} {engine : TemplateEngine} {py : PyText}.

(** [TranslateNode.render] when the message context and the expression
    resolve: the value is rendered, its doubled percent signs are replaced,
    and the text is emitted or assigned to [asvar]. *)
Lemma translate_render_run (self : TranslateNode.t) w output :
  match TranslateNode.message_context self with
  | Some e =>
      exists v, resolve e (context w) = Ok v /\
        resolve_translated (TranslateNode.filter_expression self)
          (negb (TranslateNode.noop self)) (Some v) (context w) (active w) = Ok output
  | None =>
      resolve_translated (TranslateNode.filter_expression self)
        (negb (TranslateNode.noop self)) None (context w) (active w) = Ok output
  end ->
  let rendered := render_value_in_context output (context w) in
  let restored := replace "%%" "%" (chars rendered) in
  TranslateNode.render self w =
  match TranslateNode.asvar self with
  | Some name =>
      if String.eqb name EmptyString then (Ok restored, w)
      else
        match dicts (context w) with
        | [] => (Raise IndexError, w)
        | _ :: _ =>
            (Ok EmptyString,
             assigned name (value_of_text {| chars := restored;
                                             is_safe := is_safe rendered |}) w)
        end
  | None => (Ok restored, w)
  end.
Proof.
  intros H. unfold TranslateNode.render.
  assert (forall mc,
    resolve_translated (TranslateNode.filter_expression self)
      (negb (TranslateNode.noop self)) mc (context w) (active w) = Ok output ->
    (c ← get_context;
     language ← get_language;
     output ← lift (resolve_translated (TranslateNode.filter_expression self)
                      (negb (TranslateNode.noop self)) mc c language);
     let value := render_value_in_context output c in
     let value := {| chars := replace "%%" "%" (chars value);
                     is_safe := is_safe value |} in
     match TranslateNode.asvar self with
     | Some name =>
         if String.eqb name EmptyString then mret (chars value)
         else _ ← context_setitem name (value_of_text value); mret EmptyString
     | None => mret (chars value)
     end) w =
    match TranslateNode.asvar self with
    | Some name =>
        if String.eqb name EmptyString
        then (Ok (replace "%%" "%" (chars (render_value_in_context output (context w)))), w)
        else
          match dicts (context w) with
          | [] => (Raise IndexError, w)
          | _ :: _ =>
              (Ok EmptyString,
               assigned name
                 (value_of_text
                    {| chars := replace "%%" "%"
                                  (chars (render_value_in_context output (context w)));
                       is_safe := is_safe (render_value_in_context output (context w)) |})
                 w)
          end
    | None => (Ok (replace "%%" "%" (chars (render_value_in_context output (context w)))), w)
    end) as Hbody.
  { intros mc Hmc.
    unfold get_context, get_language, lift, mbind, M_bind, mret, M_ret.
    rewrite Hmc. cbn.
    destruct (TranslateNode.asvar self) as [name|]; [|done].
    destruct (String.eqb name EmptyString); [done|].
    unfold context_setitem, get_context, emit, set_dicts, raise, assigned.
    unfold mbind, M_bind. cbn.
    destruct (dicts (context w)); reflexivity. }
  destruct (TranslateNode.message_context self) as [e|].
  - destruct H as (v & Hv & Hout).
    rewrite RenderFacts.bind_run.
    rewrite RenderFacts.bind_run, RenderFacts.resolve_in_context_run, Hv.
    cbn [mret M_ret]. by apply Hbody.
  - rewrite RenderFacts.bind_run. cbn [mret M_ret]. by apply Hbody.
Qed.


End Facts.

End PercentFacts.

(** ** The language override *)

Module LanguageFacts.
Import PyStr PyDict PyFormat Django Observe.

Section Facts.
Context {engine : TemplateEngine}.

(** C9: whatever the wrapped fragment does, return a value, raise, or
    switch the language itself, the language active after
    [LanguageNode.render] is the one that was active before.  The override
    is in force exactly while the fragment renders: the fragment starts in
    the world where the resolved language is active, and on either exit the
    previous language is activated again, the exception of a failed fragment
    passing through. *)
Theorem language_restored (self : LanguageNode.t) w :
  active (LanguageNode.render self w).2 = active w
  /\ (forall v code,
        resolve (LanguageNode.language self) (context w) = Ok v ->
        LanguageNode.language_code v = Ok code ->
        active (enter_override code w) = code /\
        LanguageNode.render self w =
        ((LanguageNode.nodelist_render (LanguageNode.nodelist self)
            (enter_override code w)).1,
         exit_override (active w)
           (LanguageNode.nodelist_render (LanguageNode.nodelist self)
              (enter_override code w)).2))
  /\ (forall v code e w1,
        resolve (LanguageNode.language self) (context w) = Ok v ->
        LanguageNode.language_code v = Ok code ->
        LanguageNode.nodelist_render (LanguageNode.nodelist self)
          (enter_override code w) = (Raise e, w1) ->
        LanguageNode.render self w = (Raise e, exit_override (active w) w1)
        /\ active (exit_override (active w) w1) = active w).
Proof.
  assert (forall v code,
    resolve (LanguageNode.language self) (context w) = Ok v ->
    LanguageNode.language_code v = Ok code ->
    LanguageNode.render self w =
    ((LanguageNode.nodelist_render (LanguageNode.nodelist self)
        (enter_override code w)).1,
     exit_override (active w)
       (LanguageNode.nodelist_render (LanguageNode.nodelist self)
          (enter_override code w)).2)) as Hrun.
  { intros v code Hv Hc. unfold LanguageNode.render.
    rewrite RenderFacts.bind_run, RenderFacts.resolve_in_context_run, Hv.
    rewrite RenderFacts.bind_run. unfold lift. rewrite Hc.
    unfold with_override.
    by destruct (LanguageNode.nodelist_render (LanguageNode.nodelist self)
                   (enter_override code w)). }
  split; [|split].
  - destruct (resolve (LanguageNode.language self) (context w)) as [v|e] eqn:Hv.
    + destruct (LanguageNode.language_code v) as [code|e] eqn:Hc.
      * by rewrite (Hrun v code eq_refl Hc).
      * unfold LanguageNode.render.
        rewrite RenderFacts.bind_run, RenderFacts.resolve_in_context_run, Hv.
        rewrite RenderFacts.bind_run. unfold lift. by rewrite Hc.
    + unfold LanguageNode.render.
      by rewrite RenderFacts.bind_run, RenderFacts.resolve_in_context_run, Hv.
  - intros v code Hv Hc. split; [done|]. by apply (Hrun v).
  - intros v code e w1 Hv Hc Hn. rewrite (Hrun v code Hv Hc), Hn. done.
Qed.

End Facts.

End LanguageFacts.

(** ** The renderers on concrete nodes *)

Module RenderCases.
Import PyStr PyDict PyFormat Django Parser Observe Example.


(** The second attempt is final: a message that cannot be substituted in
    any language ends in the syntax error, with the language restored. *)
Lemma retry_fails_with_syntax_error :
  (BlockTranslateNode.render unbalanced_node false (world (Some "fr") [])).1
  = Raise (TemplateSyntaxError
             (UnableToFormat "blocktranslate" "%(na)me)s" [("na)me", EmptyString)]))
  /\ active (BlockTranslateNode.render unbalanced_node false (world (Some "fr") [])).2
     = Some "fr"
  /\ List.filter is_lookup
       (trace (BlockTranslateNode.render unbalanced_node false (world (Some "fr") [])).2)
     = [Lookup (Some "fr") (Gettext "%(na)me)s"); Lookup None (Gettext "%(na)me)s")].
Proof. vm_compute. repeat split; reflexivity. Qed.



(** C6 fails on the retry path: at [Hello {{ name }}] with [asvar greeting]
    rendered in French, the second attempt assigns the formatted text to
    [greeting] and returns the empty string, and the first attempt then
    assigns that empty string to [greeting]. *)
Theorem asvar_lost_on_retry :
  (BlockTranslateNode.render (hello_node (Some "greeting")) false (ann (Some "fr"))).1
  = Ok EmptyString
  /\ stack_get
       (dicts (context (BlockTranslateNode.render (hello_node (Some "greeting")) false
                          (ann (Some "fr"))).2))
       "greeting"
     = Some (VStr EmptyString)
  /\ trace (BlockTranslateNode.render (hello_node (Some "greeting")) false
              (ann (Some "fr"))).2
     = [Update ∅; Lookup (Some "fr") (Gettext "Hello %(name)s"); Pop;
        OverrideEnter None;
        Update ∅; Lookup None (Gettext "Hello %(name)s"); Pop;
        SetItem "greeting" (VStr "Hello Ann");
        OverrideExit (Some "fr");
        SetItem "greeting" (VStr EmptyString)].
Proof. vm_compute. repeat split; reflexivity. Qed.

(** Without the retry the formatted text is what [greeting] holds. *)
Lemma asvar_bound_without_retry :
  (BlockTranslateNode.render (hello_node (Some "greeting")) false (ann (Some "en"))).1
  = Ok EmptyString
  /\ stack_get
       (dicts (context (BlockTranslateNode.render (hello_node (Some "greeting")) false
                          (ann (Some "en"))).2))
       "greeting"
     = Some (VStr "Hello Ann").
Proof. vm_compute. split; reflexivity. Qed.

(** C8 at [Hello {{ name }}] with [asvar greeting] rendered in English. *)
Lemma render_frames_context_witness :
  BlockTranslateNode.render (hello_node (Some "greeting")) false (ann (Some "en"))
  = (Ok EmptyString,
     assigned "greeting" (VStr "Hello Ann")
       (log [Update ∅; Lookup (Some "en") (Gettext "Hello %(name)s"); Pop]
            (ann (Some "en"))))
  /\ active (assigned "greeting" (VStr "Hello Ann")
               (log [Update ∅; Lookup (Some "en") (Gettext "Hello %(name)s"); Pop]
                    (ann (Some "en")))) = Some "en"
  /\ length (dicts (context
       (assigned "greeting" (VStr "Hello Ann")
          (log [Update ∅; Lookup (Some "en") (Gettext "Hello %(name)s"); Pop]
               (ann (Some "en")))))) = 2.
Proof.
  assert (BlockTranslateNode.render (hello_node (Some "greeting")) false (ann (Some "en"))
          = (Ok EmptyString,
             assigned "greeting" (VStr "Hello Ann")
               (log [Update ∅; Lookup (Some "en") (Gettext "Hello %(name)s"); Pop]
                    (ann (Some "en"))))) as H by (vm_compute; reflexivity).
  split; [exact H|].
  destruct (RenderFacts.render_frames_context _ _ _ _ H)
    as (scope & events & _ & _ & _ & _ & _ & Ha & _ & Hd).
  split; [exact Ha|].
  assert (asvar_name (hello_node (Some "greeting")) = Some "greeting") as Hn
    by reflexivity.
  rewrite Hn in Hd. destruct Hd as (v & top & below & Hw & Hw').
  rewrite Hw'. apply (f_equal length) in Hw. cbn in Hw. cbn [length].
  by rewrite <- Hw.
Defined.

(** C8 as stated fails at [Hello {{ name }}] rendered in French: the
    render succeeds and has pushed, and popped, two scopes. *)
Lemma retry_pushes_two_scopes :
  (BlockTranslateNode.render (hello_node None) false (ann (Some "fr"))).1
  = Ok "Hello Ann"
  /\ count is_update
       (trace (BlockTranslateNode.render (hello_node None) false (ann (Some "fr"))).2) = 2
  /\ count is_pop
       (trace (BlockTranslateNode.render (hello_node None) false (ann (Some "fr"))).2) = 2.
Proof. vm_compute. repeat split; reflexivity. Qed.

(** [{% translate "100%%" noop %}] emits [100%], and a block with the text
    [100%] emits [100%]. *)
Lemma percent_examples :
  (TranslateNode.render percent_node (world (Some "fr") [])).1 = Ok "100%"
  /\ (BlockTranslateNode.render
        {| BlockTranslateNode.extra_context := [];
           BlockTranslateNode.singular := [text_token "100%"];
           BlockTranslateNode.plural := None;
           BlockTranslateNode.countervar := None;
           BlockTranslateNode.counter := None;
           BlockTranslateNode.message_context := None;
           BlockTranslateNode.trimmed := false;
           BlockTranslateNode.asvar := None;
           BlockTranslateNode.tag_name := "blocktranslate" |}
        false (world (Some "fr") [])).1 = Ok "100%".
Proof. vm_compute. split; reflexivity. Qed.

(** [{% language "de" %}] around a node that switches the language and
    fails: the exception passes and French is active again. *)
Lemma language_restored_after_failure :
  (LanguageNode.render language_node (world (Some "fr") [])).1 = Raise (Raised "boom")
  /\ active (LanguageNode.render language_node (world (Some "fr") [])).2 = Some "fr"
  /\ trace (LanguageNode.render language_node (world (Some "fr") [])).2
     = [OverrideEnter (Some "de"); OverrideExit (Some "fr")].
Proof. vm_compute. repeat split; reflexivity. Qed.

End RenderCases.

(** ** More on the parser [do_block_translate] *)

Module ParserMore.
Import PyStr PyDict PyFormat Django Parser Observe ObserveMore.

Section Facts.
Context {engine : TemplateEngine}.

Lemma extends_refl o : extends_options o o.
Proof. by repeat split. Qed.

Lemma extends_trans o1 o2 o3 :
  extends_options o1 o2 -> extends_options o2 o3 -> extends_options o1 o3.
Proof.
  intros (A1 & A2 & A3 & A4 & A5) (B1 & B2 & B3 & B4 & B5).
  repeat split; eauto.
Qed.

Lemma not_stored {A} (x : option A) :
  bool_decide (is_Some x) = false -> x = None.
Proof. destruct x; [|done]. intros H. apply bool_decide_eq_false in H. destruct H. by eexists. Qed.

(** One turn of the loop: the option is one of the five names, it was not
    stored before, it is stored after, and nothing stored before changed. *)
Lemma parse_option_turn tag o option bits o' rest :
  parse_option tag o option bits = Ok (o', rest) ->
  known_option option = true /\ option_in option o = false /\
  option_in option o' = true /\ extends_options o o'.
Proof.
  unfold parse_option, known_option.
  destruct (option_in option o) eqn:Hin; [done|].
  destruct (String.eqb option "with") eqn:E1.
  { apply String.eqb_eq in E1 as ->.
    apply not_stored in Hin.
    destruct (token_kwargs bits true) as [[v r]|]; cbn; [|done].
    destruct v; [done|]. inversion 1; subst.
    repeat split; try done. intros x. by rewrite Hin. }
  destruct (String.eqb option "count") eqn:E2.
  { apply String.eqb_eq in E2 as ->.
    apply not_stored in Hin.
    destruct (token_kwargs bits true) as [[v r]|]; cbn; [|done].
    destruct (negb (length v =? 1)%nat); [done|]. inversion 1; subst.
    repeat split; try done. intros x. by rewrite Hin. }
  destruct (String.eqb option "context") eqn:E3.
  { apply String.eqb_eq in E3 as ->.
    apply not_stored in Hin.
    destruct bits as [|v r]; [done|]. destruct (compile_filter v); [|done].
    inversion 1; subst. repeat split; try done. intros x. by rewrite Hin. }
  destruct (String.eqb option "trimmed") eqn:E4.
  { apply String.eqb_eq in E4 as ->.
    apply not_stored in Hin.
    inversion 1; subst. repeat split; try done. intros x. by rewrite Hin. }
  destruct (String.eqb option "asvar") eqn:E5; [|done].
  apply String.eqb_eq in E5 as ->.
  apply not_stored in Hin.
  destruct bits as [|v r]; [done|]. inversion 1; subst.
  repeat split; try done. intros x. by rewrite Hin.
Qed.

Lemma parse_options_from_extends tag n : forall bits o o',
  length bits <= n ->
  parse_options_from tag o bits = Ok o' -> extends_options o o'.
Proof.
  induction n as [|n IH]; intros bits o o' Hn H.
  - destruct bits; [|cbn in Hn; lia]. inversion H; subst. apply extends_refl.
  - destruct bits as [|option rest]; [inversion H; subst; apply extends_refl|].
    rewrite ParserFacts.parse_options_from_cons in H.
    destruct (parse_option tag o option rest) as [[o1 rest1]|] eqn:E; [|done].
    pose proof (ParserFacts.parse_option_length _ _ _ _ _ _ E) as Hl.
    apply parse_option_turn in E as (_ & _ & _ & E).
    eapply extends_trans; [exact E|]. eapply IH; [|exact H]. cbn in Hn. lia.
Qed.

Lemma stored_stays o o' option :
  extends_options o o' -> option_in option o = true -> option_in option o' = true.
Proof.
  intros (A1 & A2 & A3 & A4 & A5). unfold option_in.
  repeat (destruct (String.eqb option _); [
    intros H; apply bool_decide_eq_true in H as [v Hv];
    apply bool_decide_eq_true; eexists; eauto |]).
  done.
Qed.

(** X1: a successful run of the option loop never replaces an option that
    is already stored, and the option word it starts on is one of the five
    names, was not stored before and is stored at the end. *)
Theorem options_stored_once tag o bits o' :
  parse_options_from tag o bits = Ok o' ->
  extends_options o o'
  /\ (forall option rest,
        bits = option :: rest ->
        known_option option = true /\ option_in option o = false /\
        option_in option o' = true).
Proof.
  intros H. split; [by eapply parse_options_from_extends|].
  intros option rest ->. rewrite ParserFacts.parse_options_from_cons in H.
  destruct (parse_option tag o option rest) as [[o1 rest1]|] eqn:E; [|done].
  apply parse_option_turn in E as (Hk & Hf & Hs & _).
  split; [done|]. split; [done|].
  eapply stored_stays; [|exact Hs]. by eapply parse_options_from_extends.
Qed.

Lemma unknown_not_stored option o :
  known_option option = false -> option_in option o = false.
Proof.
  unfold known_option, option_in. intros H.
  repeat (apply orb_false_iff in H as [H ?]).
  by repeat match goal with E : String.eqb _ _ = false |- _ => rewrite E; clear E end.
Qed.

(** X2: wherever the option loop stands, a word that names an option
    already stored ends the parse with "specified more than once", and a
    word that is none of the five option names ends it with "unknown
    argument", whatever bits follow. *)
Theorem repeated_or_unknown_option tag o option rest :
  (option_in option o = true ->
   parse_options_from tag o (option :: rest)
   = Raise (TemplateSyntaxError (OptionTwice option)))
  /\ (known_option option = false ->
      parse_options_from tag o (option :: rest)
      = Raise (TemplateSyntaxError (UnknownArgument tag option))).
Proof.
  split; intros H; rewrite ParserFacts.parse_options_from_cons; unfold parse_option.
  - by rewrite H.
  - rewrite (unknown_not_stored option o H).
    unfold known_option in H. repeat (apply orb_false_iff in H as [H ?]).
    by repeat match goal with E : String.eqb _ _ = false |- _ => rewrite E; clear E end.
Qed.

(** X3: [asvar] and [context] need an argument.  At the end of the bits
    each fails with its own message; and when the argument of [context]
    does not compile, the error of the filter compiler is not what the
    caller sees: it is replaced by "expected exactly one argument". *)
Theorem option_needs_argument tag o :
  (option_in "asvar" o = false ->
   parse_options_from tag o ["asvar"]
   = Raise (TemplateSyntaxError (NoAsvarArgument tag)))
  /\ (option_in "context" o = false ->
      parse_options_from tag o ["context"]
      = Raise (TemplateSyntaxError (ContextExpectsOne tag)))
  /\ (forall v rest e,
        option_in "context" o = false ->
        compile_filter v = Raise e ->
        parse_options_from tag o ("context" :: v :: rest)
        = Raise (TemplateSyntaxError (ContextExpectsOne tag)))
  /\ (forall v rest,
        option_in "asvar" o = false ->
        parse_options_from tag o ("asvar" :: v :: rest)
        = parse_options_from tag (set_asvar o v) rest).
Proof.
  repeat split.
  - intros H. rewrite ParserFacts.parse_options_from_cons. unfold parse_option.
    by rewrite H.
  - intros H. rewrite ParserFacts.parse_options_from_cons. unfold parse_option.
    by rewrite H.
  - intros v rest e H Hc. rewrite ParserFacts.parse_options_from_cons.
    unfold parse_option. rewrite H. cbn. by rewrite Hc.
  - intros v rest H. rewrite ParserFacts.parse_options_from_cons.
    unfold parse_option. by rewrite H.
Qed.

Lemma last_nonempty (l : list Token) : forall x d d',
  List.last (x :: l) d = List.last (x :: l) d'.
Proof.
  induction l as [|y l IH]; intros x d d'; [done|].
  change (List.last (y :: l) d = List.last (y :: l) d'). apply IH.
Qed.

Lemma last_token_cons t tokens token :
  last_token (t :: tokens) token = last_token tokens t.
Proof.
  unfold last_token. destruct tokens as [|x l]; [done|].
  change (List.last (x :: l) token = List.last (x :: l) t). apply last_nonempty.
Qed.

(** Reading a body: the tokens read are body tokens, and the stream is the
    body, then the token the loop stopped on if there is one, then the
    rest. *)
Lemma read_body_split tokens : forall token body last rest,
  read_body tokens token = (body, last, rest) ->
  Forall (fun t => is_body_token t = true) body /\
  ((tokens = body /\ rest = [] /\ last = last_token body token) \/
   (tokens = body ++ last :: rest /\ is_body_token last = false)).
Proof.
  induction tokens as [|t tokens IH]; intros token body last rest H;
    cbn [read_body] in H.
  - inversion H; subst. split; [constructor|]. by left.
  - destruct (is_body_token t) eqn:Ht.
    + destruct (read_body tokens t) as [[b l] r] eqn:E. inversion H; subst.
      apply IH in E as (Hb & [(Hx & Hy & Hz)|(Hx & Hl)]).
      * subst. split; [by constructor|]. left. repeat split.
        by rewrite last_token_cons.
      * subst. split; [by constructor|]. by right.
    + inversion H; subst. split; [constructor|]. by right.
Qed.

Lemma filter_body body :
  Forall (fun t => is_body_token t = true) body ->
  List.filter is_body_token body = body.
Proof.
  induction 1 as [|t body Ht _ IH]; [done|]. cbn. by rewrite Ht, IH.
Qed.

Lemma do_block_translate_ok bits token tokens node rest :
  do_block_translate bits token tokens = Ok (node, rest) ->
  exists tag args o cb sing tok1 rest1 pl tok2,
    bits = tag :: args /\
    parse_options tag args = Ok o /\
    counter_binding o = Ok cb /\
    read_body tokens token = (sing, tok1, rest1) /\
    read_plural tag (counts cb.1 cb.2) tok1 rest1 = Ok (pl, tok2, rest) /\
    String.eqb (strip (contents tok2)) (String.append "end" tag) = true /\
    node = make_node tag o cb sing pl.
Proof.
  unfold do_block_translate. intros H.
  destruct bits as [|tag args].
  { cbn in H. by destruct (read_body tokens token) as [[sing tok1] rest1]. }
  cbn [hd tl] in H.
  destruct (parse_options tag args) as [o|] eqn:Ho; [|done]. cbn in H.
  destruct (counter_binding o) as [cb|] eqn:Hcb; [|done]. cbn in H.
  destruct (read_body tokens token) as [[sing tok1] rest1] eqn:Hs.
  destruct (read_plural tag (counts cb.1 cb.2) tok1 rest1)
    as [[[pl tok2] rest2]|] eqn:Hp; [|done]. cbn in H.
  destruct (String.eqb (strip (contents tok2)) (String.append "end" tag)) eqn:He;
    [|done].
  inversion H; subst. by exists tag, args, o, cb, sing, tok1, rest1, pl, tok2.
Qed.

(** X4: what every parsed node satisfies.  Its tag name is the first bit;
    its singular and plural bodies hold text and variable tokens only; the
    counter variable and the counter expression are both there or both
    missing; and a plural body that is not empty comes with a counter. *)
Theorem parsed_node_invariant bits token tokens node rest :
  do_block_translate bits token tokens = Ok (node, rest) ->
  exists pl,
    hd_error bits = Some (BlockTranslateNode.tag_name node) /\
    BlockTranslateNode.plural node = Some pl /\
    Forall (fun t => is_body_token t = true) (BlockTranslateNode.singular node) /\
    Forall (fun t => is_body_token t = true) pl /\
    (BlockTranslateNode.countervar node = None <->
     BlockTranslateNode.counter node = None) /\
    (pl <> [] -> counts (BlockTranslateNode.countervar node)
                        (BlockTranslateNode.counter node) = true).
Proof.
  intros H. apply do_block_translate_ok in H
    as (tag & args & o & cb & sing & tok1 & rest1 & pl & tok2
        & -> & Ho & Hcb & Hs & Hp & He & ->).
  exists pl. cbn.
  apply read_body_split in Hs as (Hsing & _).
  split; [done|]. split; [done|]. split; [done|].
  assert (cb = (None, None) \/ exists name e, cb = (Some name, Some e)) as Hpair.
  { unfold counter_binding in Hcb. destruct (opt_count o) as [[|[name e] kw]|].
    - done.
    - inversion Hcb. right. by eexists _, _.
    - inversion Hcb. by left. }
  unfold read_plural in Hp.
  destruct (counts cb.1 cb.2) eqn:Hc.
  - destruct (negb (String.eqb (strip (contents tok1)) "plural")); [done|].
    inversion Hp as [Hr]. apply read_body_split in Hr as (Hpl & _).
    split; [done|]. split; [|done].
    destruct Hpair as [->|(name & e & ->)]; cbn; split; done.
  - inversion Hp; subst. split; [constructor|]. split; [|done].
    destruct Hpair as [->|(name & e & ->)]; cbn; split; done.
Qed.

(** X5: a successful parse consumes a prefix of the token stream and hands
    back the rest untouched; the text and variable tokens of the consumed
    prefix are the singular body followed by the plural body, in order. *)
Theorem parse_consumes_prefix bits token tokens node rest :
  do_block_translate bits token tokens = Ok (node, rest) ->
  exists consumed pl,
    tokens = consumed ++ rest /\
    BlockTranslateNode.plural node = Some pl /\
    List.filter is_body_token consumed = BlockTranslateNode.singular node ++ pl.
Proof.
  intros H. apply do_block_translate_ok in H
    as (tag & args & o & cb & sing & tok1 & rest1 & pl & tok2
        & -> & Ho & Hcb & Hs & Hp & He & ->).
  apply read_body_split in Hs as (Hsing & Hs).
  unfold read_plural in Hp. cbn.
  destruct (counts cb.1 cb.2).
  - destruct (negb (String.eqb (strip (contents tok1)) "plural")) eqn:Hpl; [done|].
    inversion Hp as [Hr]. apply read_body_split in Hr as (Hplb & Hr).
    destruct Hs as [(-> & -> & ->)|(-> & Hb1)].
    + (* the stream ran out in the singular body *)
      cbn in Hr. destruct Hr as [(Hpl' & -> & ->)|(Hpl' & _)]; [|by destruct pl].
      subst pl. exists sing, []. rewrite !app_nil_r.
      split; [done|]. split; [done|]. by apply filter_body.
    + destruct Hr as [(-> & -> & ->)|(-> & Hb2)].
      * exists (sing ++ tok1 :: pl), pl. rewrite app_nil_r.
        split; [done|]. split; [done|].
        rewrite List.filter_app. cbn. rewrite Hb1.
        by rewrite !filter_body.
      * exists (sing ++ tok1 :: pl ++ [tok2]), pl.
        split; [by rewrite <- !app_assoc, <- app_comm_cons, <- !app_assoc|].
        split; [done|].
        rewrite List.filter_app. cbn. rewrite Hb1, List.filter_app. cbn.
        rewrite Hb2, app_nil_r. by rewrite !filter_body.
  - inversion Hp; subst.
    destruct Hs as [(-> & -> & ->)|(-> & Hb1)].
    + exists sing, []. rewrite !app_nil_r.
      split; [done|]. split; [done|]. by apply filter_body.
    + exists (sing ++ [tok2]), [].
      split; [by rewrite <- app_assoc|]. split; [done|].
      rewrite List.filter_app. cbn. rewrite Hb1, !app_nil_r. by apply filter_body.
Qed.

Lemma read_body_all tokens : forall token,
  Forall (fun t => is_body_token t = true) tokens ->
  read_body tokens token = (tokens, last_token tokens token, []).
Proof.
  induction tokens as [|t tokens IH]; intros token H; [done|].
  inversion H as [|? ? Ht Hts]; subst. cbn [read_body].
  by rewrite Ht, (IH t Hts), last_token_cons.
Qed.

(** X6: a token stream that runs out inside the singular body.  The loop
    leaves the variable [token] on the last token read (on the opening tag
    when there was none), and the checks meant for the separators are made
    on that token.  Without a count binding the parse succeeds exactly when
    that last body token reads [end<tag>], with every token in the singular
    body; with a count binding it always fails. *)
Theorem stream_ends_in_singular_body tag args token tokens o cb :
  parse_options tag args = Ok o ->
  counter_binding o = Ok cb ->
  Forall (fun t => is_body_token t = true) tokens ->
  let final := last_token tokens token in
  do_block_translate (tag :: args) token tokens =
  if counts cb.1 cb.2 then
    if String.eqb (strip (contents final)) "plural"
    then Raise (TemplateSyntaxError (OtherBlockTagsSeen tag (contents final)))
    else Raise (TemplateSyntaxError (OtherBlockTags tag))
  else
    if String.eqb (strip (contents final)) (String.append "end" tag)
    then Ok (make_node tag o cb tokens [], [])
    else Raise (TemplateSyntaxError (OtherBlockTagsSeen tag (contents final))).
Proof.
  intros Ho Hcb Hall final. unfold do_block_translate. cbn [hd tl].
  rewrite Ho. cbn. rewrite Hcb. cbn. rewrite (read_body_all tokens token Hall).
  fold final. unfold read_plural.
  destruct (counts cb.1 cb.2).
  - destruct (String.eqb (strip (contents final)) "plural") eqn:Hp; [|done].
    cbn. apply String.eqb_eq in Hp. rewrite Hp. reflexivity.
  - cbn. by destruct (String.eqb (strip (contents final)) (String.append "end" tag)).
Qed.

End Facts.

End ParserMore.

(** ** More on [BlockTranslateNode] *)

Module RenderMore.
Import PyStr PyDict PyFormat Django Observe ObserveMore.
Import BlockTranslateNode.

Section Facts.
Context {catalog : Catalog} {engine : TemplateEngine} {py : PyText}.

Lemma join_app a b : join (a ++ b) = String.append (join a) (join b).
Proof.
  induction a as [|x a IH]; [done|]. cbn [app join fold_right].
  fold (join (a ++ b)). fold (join a). by rewrite IH, StringFacts.append_assoc.
Qed.

Lemma token_list_parts_app a b :
  token_list_parts (a ++ b) =
  ((token_list_parts a).1 ++ (token_list_parts b).1,
   (token_list_parts a).2 ++ (token_list_parts b).2).
Proof.
  induction a as [|t a IH]; cbn [app token_list_parts].
  - by destruct (token_list_parts b).
  - rewrite IH. destruct (token_list_parts a) as [ra va].
    destruct (token_list_parts b) as [rb vb]. cbn [fst snd].
    by destruct (token_type t).
Qed.

Lemma token_list_parts_vars tokens :
  (token_list_parts tokens).2 = var_names tokens.
Proof.
  unfold var_names. induction tokens as [|t tokens IH]; [done|].
  cbn [token_list_parts List.filter]. destruct (token_list_parts tokens) as [r v].
  cbn [snd] in IH. destruct (token_type t); cbn; by rewrite ?IH.
Qed.

Lemma token_list_parts_body tokens :
  token_list_parts (List.filter is_body_token tokens) = token_list_parts tokens.
Proof.
  induction tokens as [|t tokens IH]; [done|].
  cbn [List.filter]. unfold is_body_token at 1.
  destruct (token_type t) eqn:Ty; cbn [token_list_parts]; rewrite ?IH, ?Ty;
    by destruct (token_list_parts tokens).
Qed.

(** X7: the message of a token list is built token by token.  The second
    component of [render_token_list] is the names of the variable tokens in
    order; tokens that are neither text nor variable add nothing; and,
    without [trimmed], the message of two lists put together is the two
    messages put together. *)
Theorem token_list_composes (self : t) :
  (forall tokens, (render_token_list self tokens).2 = var_names tokens)
  /\ (forall tokens,
        render_token_list self (List.filter is_body_token tokens)
        = render_token_list self tokens)
  /\ (trimmed self = false ->
      forall a b,
        message_of self (a ++ b)
        = String.append (message_of self a) (message_of self b)).
Proof.
  split; [|split].
  - intros tokens. unfold render_token_list.
    rewrite <- token_list_parts_vars. by destruct (token_list_parts tokens).
  - intros tokens. unfold render_token_list. by rewrite token_list_parts_body.
  - intros Ht a b. unfold message_of, render_token_list. rewrite Ht.
    rewrite token_list_parts_app.
    destruct (token_list_parts a) as [ra va].
    destruct (token_list_parts b) as [rb vb]. cbn [fst snd]. apply join_app.
Qed.

(** The head of [render]: the message context and the [with] bindings are
    resolved in the context as it is, then the scope is pushed. *)
Lemma lookup_message_head self w mc scope :
  resolved_context self (context w) = Ok mc ->
  resolve_items (extra_context self) ∅ w = (Ok scope, w) ->
  lookup_message self w =
  (let '(singular, vars) := render_token_list self (singular self) in
   looked_up ←
     match pluralizes self with
     | Some (plural_tokens, countervar, counter) =>
         count ← resolve_in_context counter;
         _ ← context_setitem countervar count;
         let '(plural, plural_vars) := render_token_list self plural_tokens in
         result ← call_catalog
                    match has_context mc with
                    | Some mc => Npgettext mc singular plural count
                    | None => Ngettext singular plural count
                    end;
         mret (result, vars ++ plural_vars)
     | None =>
         result ← call_catalog
                    match has_context mc with
                    | Some mc => Pgettext mc singular
                    | None => Gettext singular
                    end;
         mret (result, vars)
     end;
   data ← render_values looked_up.2 [];
   _ ← context_pop;
   mret (looked_up.1, data)) (inside scope [Update scope] w).
Proof.
  intros Hmc Hsc. unfold lookup_message. rewrite RenderFacts.bind_run.
  assert (match message_context self with
          | Some e => resolve_in_context e ≫= λ v : value, mret (Some v)
          | None => mret None
          end w = (Ok mc, w)) as ->.
  { unfold resolved_context in Hmc. destruct (message_context self) as [e|].
    - rewrite RenderFacts.bind_run, RenderFacts.resolve_in_context_run.
      destruct (resolve e (context w)); by inversion Hmc.
    - by inversion Hmc. }
  rewrite RenderFacts.bind_run, Hsc. rewrite RenderFacts.bind_run. reflexivity.
Qed.

(** X8: [render] has no [finally].  When the counter expression of a
    pluralizing node fails to resolve, the exception leaves [render] with
    the scope of the [with] bindings still pushed on the context: the pop at
    the end of the function is never reached. *)
Theorem failed_counter_leaves_scope self w mc scope ptoks name e x :
  resolved_context self (context w) = Ok mc ->
  resolve_items (extra_context self) ∅ w = (Ok scope, w) ->
  pluralizes self = Some (ptoks, name, e) ->
  resolve e (pushed scope (context w)) = Raise x ->
  forall nested,
    render self nested w = (Raise x, inside scope [Update scope] w)
    /\ length (dicts (context (inside scope [Update scope] w)))
       = S (length (dicts (context w))).
Proof.
  intros Hmc Hsc Hp Hx nested. split; [|done].
  unfold render. rewrite (RenderFacts.render_fuel_unfold 1), RenderFacts.bind_run.
  rewrite (lookup_message_head self w mc scope Hmc Hsc), Hp.
  destruct (render_token_list self (singular self)) as [msg vars].
  rewrite !RenderFacts.bind_run, RenderFacts.resolve_in_context_run.
  cbn [context inside]. by rewrite Hx.
Qed.

(** X9: a [TypeError] of the substitution is not one of the errors [render]
    catches.  It leaves [render] at once, on the first attempt as on the
    second, with the scope already popped and no language override made. *)
Theorem type_error_is_not_retried self w result data w1 :
  lookup_message self w = (Ok (result, data), w1) ->
  py_format result (ArgDict data) = FmtTypeError ->
  forall nested,
    render self nested w = (Raise TypeError, w1)
    /\ context w1 = context w /\ active w1 = active w
    /\ exists events, trace w1 = trace w ++ events
                      /\ count is_override events = 0.
Proof.
  intros H1 Hf nested. split.
  - unfold render. rewrite (RenderFacts.render_fuel_unfold 1), RenderFacts.bind_run, H1.
    cbn [fst snd]. by rewrite RenderFacts.bind_run, Hf.
  - apply RenderFacts.lookup_message_trace in H1
      as (sc & ev & call & _ & -> & _ & _ & _ & Ho).
    split; [done|]. split; [done|]. exists (Update sc :: ev). split; [done|].
    by rewrite RenderFacts.count_cons, Ho.
Qed.

(** *** What any render adds to the trace *)

Lemma appends_lookup_message_any P self :
  (forall scope, P (Update scope)) -> (forall key v, P (SetItem key v)) ->
  P Pop -> (forall language call, P (Lookup language call)) ->
  appends P (lookup_message self).
Proof.
  intros Hu Hs Hp Hl. unfold lookup_message.
  apply RenderFacts.appends_bind.
  { destruct (message_context self); [|by apply RenderFacts.appends_pure].
    apply RenderFacts.appends_bind; [by apply RenderFacts.appends_pure|].
    intros v. by apply RenderFacts.appends_pure. }
  intros mc. apply RenderFacts.appends_bind.
  { apply RenderFacts.appends_same. apply RenderFacts.resolve_items_world. }
  intros scope. apply RenderFacts.appends_bind; [by apply RenderFacts.appends_update|].
  intros _. destruct (render_token_list self (singular self)) as [msg vars].
  apply RenderFacts.appends_bind.
  { destruct (pluralizes self) as [[[ptoks name] e]|].
    - apply RenderFacts.appends_bind; [by apply RenderFacts.appends_pure|].
      intros number.
      apply RenderFacts.appends_bind; [by apply RenderFacts.appends_setitem|].
      intros _. destruct (render_token_list self ptoks) as [pmsg pvars].
      apply RenderFacts.appends_bind; [|intros r; by apply RenderFacts.appends_pure].
      by apply RenderFacts.appends_call.
    - apply RenderFacts.appends_bind; [|intros r; by apply RenderFacts.appends_pure].
      by apply RenderFacts.appends_call. }
  intros looked. apply RenderFacts.appends_bind.
  { apply RenderFacts.appends_same. apply RenderFacts.render_values_world. }
  intros data. apply RenderFacts.appends_bind; [by apply RenderFacts.appends_pop|].
  intros _. by apply RenderFacts.appends_pure.
Qed.

Lemma appends_deliver_any P self s :
  (forall key v, P (SetItem key v)) -> appends P (deliver self s).
Proof.
  intros Hs. unfold deliver.
  destruct (asvar self) as [name|]; [|by apply RenderFacts.appends_pure].
  destruct (String.eqb name EmptyString); [by apply RenderFacts.appends_pure|].
  apply RenderFacts.appends_bind; [by apply RenderFacts.appends_setitem|].
  intros _. by apply RenderFacts.appends_pure.
Qed.

(** X10: a render called with [nested=True] never touches the translation
    machinery beyond its lookup: whatever its outcome, it traces no entry
    into and no exit from a language override. *)
Theorem nested_render_never_overrides self :
  appends (fun e => is_override_event e = false) (render self true).
Proof.
  unfold render. cbn [render_fuel].
  apply RenderFacts.appends_bind; [by apply appends_lookup_message_any|].
  intros looked. apply RenderFacts.appends_bind; [|intros r; by apply appends_deliver_any].
  destruct (py_format looked.1 (ArgDict looked.2)); by apply RenderFacts.appends_pure.
Qed.

(** *** The active language *)

Lemma keeps_bind {A B} (m : M A) (f : A -> M B) :
  keeps_language m -> (forall a, keeps_language (f a)) -> keeps_language (m ≫= f).
Proof.
  intros Hm Hf w. rewrite RenderFacts.bind_run. specialize (Hm w).
  destruct (m w) as [[a|e] w1]; cbn in Hm; [|done].
  by rewrite Hf.
Qed.

Lemma keeps_same {A} (m : M A) : (forall w, (m w).2 = w) -> keeps_language m.
Proof. intros H w. by rewrite H. Qed.

Lemma keeps_override {A} language (body : M A) :
  keeps_language (with_override language body).
Proof.
  intros w. unfold with_override.
  by destruct (body (enter_override language w)).
Qed.

Lemma keeps_setitem key v : keeps_language (context_setitem key v).
Proof.
  intros w. unfold context_setitem, get_context, emit, set_dicts, raise.
  unfold mbind, M_bind. cbn. by destruct (dicts (context w)).
Qed.

Lemma keeps_pop : keeps_language context_pop.
Proof.
  intros w. unfold context_pop, get_context, emit, set_dicts, raise.
  unfold mbind, M_bind. cbn. by destruct (dicts (context w)) as [|? [|? ?]].
Qed.

Lemma keeps_call call : keeps_language (call_catalog call).
Proof.
  intros w. unfold call_catalog, get_language, emit, lift.
  unfold mbind, M_bind. cbn. by destruct call.
Qed.

Lemma keeps_lookup_message self : keeps_language (lookup_message self).
Proof.
  unfold lookup_message. apply keeps_bind.
  { destruct (message_context self); [|done].
    apply keeps_bind; [done|]. by intros v. }
  intros mc. apply keeps_bind.
  { apply keeps_same. apply RenderFacts.resolve_items_world. }
  intros scope. apply keeps_bind; [done|]. intros _.
  destruct (render_token_list self (singular self)) as [msg vars].
  apply keeps_bind.
  { destruct (pluralizes self) as [[[ptoks name] e]|].
    - apply keeps_bind; [done|]. intros number.
      apply keeps_bind; [apply keeps_setitem|]. intros _.
      destruct (render_token_list self ptoks) as [pmsg pvars].
      apply keeps_bind; [apply keeps_call | by intros r].
    - apply keeps_bind; [apply keeps_call | by intros r]. }
  intros looked. apply keeps_bind.
  { apply keeps_same. apply RenderFacts.render_values_world. }
  intros data. apply keeps_bind; [apply keeps_pop | by intros _].
Qed.

(** X11: [BlockTranslateNode.render] gives the active language back as it
    found it: after a first attempt, after a retry, and after every
    exception, the one raised inside the retry included. *)
Theorem render_keeps_language self nested w :
  active (render self nested w).2 = active w.
Proof.
  revert w. change (keeps_language (render self nested)).
  unfold render. cbn [render_fuel].
  apply keeps_bind; [apply keeps_lookup_message|]. intros looked.
  apply keeps_bind.
  - destruct (py_format looked.1 (ArgDict looked.2)); try done.
    all: destruct nested; [done | apply keeps_override].
  - intros r. unfold deliver. destruct (asvar self) as [name|]; [|done].
    destruct (String.eqb name EmptyString); [done|].
    apply keeps_bind; [apply keeps_setitem | by intros _].
Qed.

(** *** A render that is not translated *)

Lemma dict_get_set_eq {V} k (v : V) d : dict_get (dict_set k v d) k = Some v.
Proof.
  induction d as [|[k' v'] d IH]; cbn.
  - by rewrite String.eqb_refl.
  - destruct (String.eqb k' k) eqn:E; cbn; [by rewrite String.eqb_refl|].
    by rewrite E.
Qed.

Lemma dict_get_set_ne {V} k k' (v : V) d :
  k <> k' -> dict_get (dict_set k v d) k' = dict_get d k'.
Proof.
  intros Hne. induction d as [|[k0 v0] d IH]; cbn.
  - apply String.eqb_neq in Hne. by rewrite Hne.
  - destruct (String.eqb k0 k) eqn:E; cbn.
    + apply String.eqb_eq in E as ->. apply String.eqb_neq in Hne. by rewrite Hne.
    + destruct (String.eqb k0 k'); [done | exact IH].
Qed.

(** The data of a render: every name has an entry, and every entry is the
    rendered value of its name. *)
Lemma render_values_data vars : forall data w data' w',
  render_values vars data w = (Ok data', w') ->
  (forall k s, dict_get data k = Some s ->
     exists r, render_value k w = (Ok r, w) /\ s = chars r) ->
  (forall k, is_Some (dict_get data k) -> is_Some (dict_get data' k)) /\
  (forall v, In v vars -> is_Some (dict_get data' v)) /\
  (forall k s, dict_get data' k = Some s ->
     exists r, render_value k w = (Ok r, w) /\ s = chars r).
Proof.
  induction vars as [|v vars IH]; intros data w data' w' H Hgood.
  - inversion H; subst. repeat split; [done | by intros ? [] | done].
  - cbn [render_values] in H. rewrite RenderFacts.bind_run in H.
    pose proof (RenderFacts.render_value_world v w) as Hw.
    destruct (render_value v w) as [[r|e] w1] eqn:Hr; [|done].
    cbn in Hw. subst w1.
    apply IH in H as (Hmono & Hin & Hgood').
    + repeat split.
      * intros k Hk. apply Hmono.
        destruct (decide (v = k)) as [->|Hne].
        -- rewrite dict_get_set_eq. by eexists.
        -- by rewrite dict_get_set_ne.
      * intros x [->|Hx]; [|by apply Hin].
        apply Hmono. rewrite dict_get_set_eq. by eexists.
      * exact Hgood'.
    + intros k s Hk. destruct (decide (v = k)) as [->|Hne].
      * rewrite dict_get_set_eq in Hk. inversion Hk; subst. by exists r.
      * rewrite dict_get_set_ne in Hk by done. by apply Hgood.
Qed.

Lemma vars_bound_from_names tokens data :
  forallb no_paren (var_names tokens) = true ->
  (forall v, In v (var_names tokens) -> is_Some (dict_get data v)) ->
  vars_bound tokens data = true.
Proof.
  unfold vars_bound, var_names.
  induction tokens as [|t tokens IH]; intros Hn Hd; [done|].
  cbn [forallb List.filter] in *.
  destruct (token_type t) eqn:Ty; cbn [map forallb] in Hn, Hd |- *;
    try (apply IH; assumption).
  apply andb_true_iff in Hn as [Hn1 Hn2].
  rewrite Hn1. cbn [andb].
  rewrite bool_decide_eq_true_2 by (apply Hd; by left). cbn [andb].
  apply IH; [done|]. intros v Hv. apply Hd. by right.
Qed.

Lemma format_message (self : t) tokens data :
  trimmed self = false ->
  vars_bound tokens data = true ->
  py_format (message_of self tokens) (ArgDict data) = FmtOk (substituted tokens data).
Proof.
  intros Ht Hb. unfold message_of, render_token_list. rewrite Ht.
  destruct (StringFacts.run_token_list data tokens
              {| mapping := Some data; next_arg := Some (ArgDict data) |}
              EmptyString eq_refl Hb) as (cur' & Hm & Hr).
  rewrite StringFacts.append_empty_r in Hr.
  destruct (token_list_parts tokens) as [result vars].
  cbn [fst] in *. unfold py_format. rewrite Hr.
  cbn [run]. rewrite Hm. cbn. by rewrite StringFacts.append_empty_r.
Qed.

Lemma render_token_list_eq (self : t) tokens :
  render_token_list self tokens = (message_of self tokens, var_names tokens).
Proof.
  unfold message_of. rewrite <- token_list_parts_vars. unfold render_token_list.
  by destruct (token_list_parts tokens).
Qed.

Lemma gettext_inside message scope events w :
  call_catalog (Gettext message) (inside scope events w) =
  (gettext (active w) message,
   inside scope (events ++ [Lookup (active w) (Gettext message)]) w).
Proof.
  unfold call_catalog, get_language, emit, lift, inside.
  unfold mbind, M_bind. cbn. do 2 f_equal. symmetry. apply List.app_assoc.
Qed.

Lemma pop_inside scope events w :
  dicts (context w) <> [] ->
  context_pop (inside scope events w) = (Ok tt, log (events ++ [Pop]) w).
Proof.
  intros Hd. unfold context_pop, get_context, emit, set_dicts, raise, inside, log.
  unfold mbind, M_bind. cbn. destruct w as [[ds sii] act tr]. cbn in *.
  destruct ds as [|d ds]; [done|]. do 2 f_equal. symmetry. apply List.app_assoc.
Qed.

(** X12: a block that is not pluralized, not trimmed, has no message
    context and no [asvar], rendered where the catalog gives its message
    back unchanged.  If the [with] bindings resolve, the names of the block
    hold no parenthesis and their values render, the output is the text of
    the block with every variable replaced by its rendered value, percent
    signs as written; the context is as before and the trace is one push,
    one [gettext] lookup and one pop. *)
Theorem untranslated_render self w scope data w2 :
  message_context self = None ->
  pluralizes self = None ->
  trimmed self = false ->
  asvar_name self = None ->
  dicts (context w) <> [] ->
  resolve_items (extra_context self) ∅ w = (Ok scope, w) ->
  gettext (active w) (message_of self (singular self))
  = Ok (message_of self (singular self)) ->
  forallb no_paren (var_names (singular self)) = true ->
  render_values (var_names (singular self)) []
    (inside scope [Update scope;
                   Lookup (active w) (Gettext (message_of self (singular self)))] w)
  = (Ok data, w2) ->
  forall nested,
    render self nested w =
    (Ok (substituted (singular self) data),
     log [Update scope;
          Lookup (active w) (Gettext (message_of self (singular self))); Pop] w)
    /\ (forall v, In v (var_names (singular self)) ->
          exists r,
            render_value v
              (inside scope
                 [Update scope;
                  Lookup (active w) (Gettext (message_of self (singular self)))] w)
            = (Ok r, inside scope
                       [Update scope;
                        Lookup (active w) (Gettext (message_of self (singular self)))] w)
            /\ dict_get data v = Some (chars r)).
Proof.
  intros Hmc Hp Ht Ha Hd Hsc Hcat Hn Hv nested.
  pose proof (RenderFacts.render_values_world (var_names (singular self)) []
                (inside scope [Update scope;
                   Lookup (active w) (Gettext (message_of self (singular self)))] w))
    as Hw2.
  rewrite Hv in Hw2. cbn [snd] in Hw2. subst w2.
  pose proof (render_values_data _ _ _ _ _ Hv) as (_ & Hin & Hgood); [done|].
  assert (forall v, In v (var_names (singular self)) ->
            exists r,
              render_value v
                (inside scope
                   [Update scope;
                    Lookup (active w) (Gettext (message_of self (singular self)))] w)
              = (Ok r, inside scope
                         [Update scope;
                          Lookup (active w) (Gettext (message_of self (singular self)))] w)
              /\ dict_get data v = Some (chars r)) as Hvals.
  { intros v Hvin. destruct (Hin v Hvin) as [s Hs].
    destruct (Hgood v s Hs) as (r & Hr & ->). by exists r. }
  split; [|exact Hvals].
  assert (py_format (message_of self (singular self)) (ArgDict data)
          = FmtOk (substituted (singular self) data)) as Hfmt.
  { apply format_message; [done|]. apply vars_bound_from_names; [done|].
    intros v Hvin. destruct (Hvals v Hvin) as (r & _ & Hr). by eexists. }
  assert (lookup_message self w =
          (Ok (message_of self (singular self), data),
           log [Update scope;
                Lookup (active w) (Gettext (message_of self (singular self))); Pop] w))
    as Hlook.
  { rewrite (lookup_message_head self w None scope);
      [|unfold resolved_context; by rewrite Hmc|done].
    rewrite Hp, render_token_list_eq. cbn [has_context].
    rewrite !RenderFacts.bind_run, gettext_inside, Hcat.
    cbn [mret M_ret fst snd app]. rewrite RenderFacts.bind_run, Hv.
    rewrite RenderFacts.bind_run, pop_inside by done. reflexivity. }
  unfold render. rewrite (RenderFacts.render_fuel_unfold 1), RenderFacts.bind_run, Hlook.
  cbn [fst snd]. rewrite RenderFacts.bind_run, Hfmt. cbn [mret M_ret].
  by rewrite RenderFacts.deliver_run, Ha.
Qed.

End Facts.

End RenderMore.

(** ** A count binding with an empty plural body *)

Module PluralFacts.
Import PyStr PyDict PyFormat Django Observe ObserveMore.
Import BlockTranslateNode.

Section Facts.
Context {catalog : Catalog} {engine : TemplateEngine} {py : PyText}.

Lemma call_inside call scope events w :
  call_catalog call (inside scope events w) =
  (answer (active w) call, inside scope (events ++ [Lookup (active w) call]) w).
Proof.
  unfold call_catalog, get_language, emit, lift, inside, answer.
  unfold mbind, M_bind. cbn. rewrite <- List.app_assoc. by destruct call.
Qed.

Lemma singular_call_event self language mc :
  singular_event self (Lookup language (singular_call self mc)).
Proof. unfold singular_call. by destruct (has_context mc). Qed.

Lemma appends_lookup_singular self :
  pluralizes self = None -> appends (singular_event self) (lookup_message self).
Proof.
  intros Hp. unfold lookup_message.
  apply RenderFacts.appends_bind.
  { destruct (message_context self); [|by apply RenderFacts.appends_pure].
    apply RenderFacts.appends_bind; [by apply RenderFacts.appends_pure|].
    intros v. by apply RenderFacts.appends_pure. }
  intros mc. apply RenderFacts.appends_bind.
  { apply RenderFacts.appends_same. apply RenderFacts.resolve_items_world. }
  intros scope. apply RenderFacts.appends_bind; [by apply RenderFacts.appends_update|].
  intros _. rewrite RenderMore.render_token_list_eq, Hp.
  apply RenderFacts.appends_bind.
  { apply RenderFacts.appends_bind; [|intros r; by apply RenderFacts.appends_pure].
    apply RenderFacts.appends_call. intros language.
    apply (singular_call_event self language mc). }
  intros looked. apply RenderFacts.appends_bind.
  { apply RenderFacts.appends_same. apply RenderFacts.render_values_world. }
  intros data. apply RenderFacts.appends_bind; [by apply RenderFacts.appends_pop|].
  intros _. by apply RenderFacts.appends_pure.
Qed.

Lemma appends_deliver_singular self s : appends (singular_event self) (deliver self s).
Proof.
  unfold deliver. destruct (asvar self) as [name|] eqn:Ha;
    [|by apply RenderFacts.appends_pure].
  destruct (String.eqb name EmptyString) eqn:En; [by apply RenderFacts.appends_pure|].
  apply RenderFacts.appends_bind; [|intros _; by apply RenderFacts.appends_pure].
  apply RenderFacts.appends_setitem. cbn. unfold asvar_name. rewrite Ha, En.
  split; [done | by exists s].
Qed.

(** What follows the lookup in [render]: the substitution, the retry and
    the delivery. *)
Lemma appends_rest_singular self fuel :
  forall (nested : bool) (looked : string * dict string),
  pluralizes self = None ->
  (forall nested', appends (singular_event self) (render_fuel fuel self nested')) ->
  appends (singular_event self)
    (result ←
       match py_format looked.1 (ArgDict looked.2) with
       | FmtOk formatted => mret formatted
       | FmtTypeError => raise TypeError
       | FmtKeyError _ | FmtValueError =>
           if nested then
             raise (TemplateSyntaxError
                      (UnableToFormat (tag_name self) looked.1 looked.2))
           else with_override None (render_fuel fuel self true)
       end;
     deliver self result).
Proof.
  intros nested looked Hp IH.
  apply RenderFacts.appends_bind; [|intros r; apply appends_deliver_singular].
  destruct (py_format looked.1 (ArgDict looked.2)); try by apply RenderFacts.appends_pure.
  all: destruct nested; [by apply RenderFacts.appends_pure|].
  all: apply RenderFacts.appends_override; [by apply IH | done | done].
Qed.

Lemma appends_render_singular self fuel : forall nested,
  pluralizes self = None ->
  appends (singular_event self) (render_fuel fuel self nested).
Proof.
  induction fuel as [|fuel IH]; intros nested Hp; [by apply RenderFacts.appends_pure|].
  cbn [render_fuel]. apply RenderFacts.appends_bind; [by apply appends_lookup_singular|].
  intros looked. apply appends_rest_singular; [done|]. intros nested'. by apply IH.
Qed.

(** The first part of [render] of a block that does not pluralize, once the
    message context and the [with] bindings are resolved: the push and the
    call of the catalog, then the values of the names and the pop. *)
Lemma lookup_singular_run self w mc scope :
  pluralizes self = None ->
  resolved_context self (context w) = Ok mc ->
  resolve_items (extra_context self) ∅ w = (Ok scope, w) ->
  lookup_message self w =
  match answer (active w) (singular_call self mc) with
  | Ok result =>
      (data ← render_values (var_names (singular self)) [];
       _ ← context_pop;
       mret (result, data))
        (inside scope [Update scope; Lookup (active w) (singular_call self mc)] w)
  | Raise e =>
      (Raise e, inside scope [Update scope; Lookup (active w) (singular_call self mc)] w)
  end.
Proof.
  intros Hp Hmc Hsc. rewrite (RenderMore.lookup_message_head self w mc scope Hmc Hsc).
  rewrite RenderMore.render_token_list_eq, Hp.
  fold (singular_call self mc).
  rewrite !RenderFacts.bind_run, call_inside. cbn [app].
  by destruct (answer (active w) (singular_call self mc)).
Qed.

(** C10: a node with a count binding and an empty plural body is rendered
    as a block that is not plural.  (1) On every world its render is the
    render of the same node without counter variable and counter expression.
    (2) As soon as the message context and the [with] bindings resolve,
    [render] pushes the scope of these bindings and calls [gettext] or
    [pgettext] on the singular message in the active language: these are the
    first two events of its trace.  (3) When the catalog answers, the names
    of the singular body are rendered in the context with that scope pushed,
    the counter variable not assigned, and when the substitution of the
    answer succeeds [render] delivers its result after the pop.  (4) Whatever
    the outcome, every lookup [render] traces is a [gettext] or [pgettext]
    of the singular message, never [ngettext] or [npgettext], and every
    assignment it traces is the one of [asvar]. *)
Theorem empty_plural_renders_singular self :
  plural self = Some [] ->
  (forall nested w, render self nested w = render (without_counter self) nested w)
  /\ (forall nested w mc scope,
        resolved_context self (context w) = Ok mc ->
        resolve_items (extra_context self) ∅ w = (Ok scope, w) ->
        exists rest,
          trace (render self nested w).2
          = trace w ++ Update scope :: Lookup (active w) (singular_call self mc) :: rest)
  /\ (forall nested w mc scope result data w2 s,
        resolved_context self (context w) = Ok mc ->
        resolve_items (extra_context self) ∅ w = (Ok scope, w) ->
        answer (active w) (singular_call self mc) = Ok result ->
        render_values (var_names (singular self)) []
          (inside scope [Update scope; Lookup (active w) (singular_call self mc)] w)
        = (Ok data, w2) ->
        dicts (context w) <> [] ->
        py_format result (ArgDict data) = FmtOk s ->
        render self nested w =
        deliver self s
          (log [Update scope; Lookup (active w) (singular_call self mc); Pop] w))
  /\ (forall nested, appends (singular_event self) (render self nested)).
Proof.
  intros Hpl. pose proof (RenderFacts.pluralizes_empty self Hpl) as Hp.
  split; [|split; [|split]].
  - intros nested w. unfold render.
    rewrite !(RenderFacts.render_fuel_unfold 1), !RenderFacts.bind_run.
    rewrite <- (RenderFacts.lookup_message_without_counter self w Hpl).
    destruct (lookup_message self w) as [[[result data]|e] w1]; [|done].
    cbn [fst snd]. rewrite !RenderFacts.bind_run.
    destruct (py_format result (ArgDict data)); try done.
    all: destruct nested; [done|].
    all: unfold with_override; rewrite !RenderFacts.render_nested_final.
    all: unfold final_attempt; rewrite !RenderFacts.bind_run.
    all: rewrite <- (RenderFacts.lookup_message_without_counter self _ Hpl).
    all: done.
  - intros nested w mc scope Hmc Hsc.
    assert (exists rest,
              trace (lookup_message self w).2
              = trace w ++ Update scope :: Lookup (active w) (singular_call self mc)
                           :: rest) as (rest & Hl).
    { rewrite (lookup_singular_run self w mc scope Hp Hmc Hsc).
      destruct (answer (active w) (singular_call self mc)) as [result|e];
        [|by exists []].
      rewrite RenderFacts.bind_run.
      pose proof (RenderFacts.render_values_world (var_names (singular self)) []
                    (inside scope
                       [Update scope; Lookup (active w) (singular_call self mc)] w))
        as Hw.
      destruct (render_values (var_names (singular self)) [] _) as [[data|e] w2];
        cbn [snd] in Hw; subst w2; [|by exists []].
      assert (appends (fun _ => True)
                (context_pop ≫= (fun _ : unit => mret (result, data)))) as Ha.
      { apply RenderFacts.appends_bind; [by apply RenderFacts.appends_pop|].
        intros _. by apply RenderFacts.appends_pure. }
      destruct (Ha (inside scope
                      [Update scope; Lookup (active w) (singular_call self mc)] w))
        as (ev & Ht & _).
      exists ev. rewrite Ht. cbn. by rewrite <- List.app_assoc. }
    unfold render. rewrite (RenderFacts.render_fuel_unfold 1), RenderFacts.bind_run.
    destruct (lookup_message self w) as [[looked|e] w1]; cbn [snd] in Hl;
      [|by exists rest].
    destruct (appends_rest_singular self 1 nested looked Hp
                (fun nested' => appends_render_singular self 1 nested' Hp) w1)
      as (ev & Ht & _).
    exists (rest ++ ev). rewrite Ht, Hl. by rewrite <- List.app_assoc.
  - intros nested w mc scope result data w2 s Hmc Hsc Hans Hv Hd Hf.
    pose proof (RenderFacts.render_values_world (var_names (singular self)) []
                  (inside scope
                     [Update scope; Lookup (active w) (singular_call self mc)] w))
      as Hw.
    rewrite Hv in Hw. cbn [snd] in Hw. subst w2.
    assert (lookup_message self w =
            (Ok (result, data),
             log [Update scope; Lookup (active w) (singular_call self mc); Pop] w))
      as Hlook.
    { rewrite (lookup_singular_run self w mc scope Hp Hmc Hsc), Hans.
      rewrite RenderFacts.bind_run, Hv.
      rewrite RenderFacts.bind_run, RenderMore.pop_inside by done. reflexivity. }
    unfold render.
    rewrite (RenderFacts.render_fuel_unfold 1), RenderFacts.bind_run, Hlook.
    cbn [fst snd]. by rewrite RenderFacts.bind_run, Hf.
  - intros nested. by apply appends_render_singular.
Qed.

End Facts.

End PluralFacts.

Module PluralCases.
Import PyStr PyDict PyFormat Django Parser Observe ObserveMore Example.

(** C10 at [{% blocktranslate count n=items %}one{% plural %}{% endblocktranslate %}]
    rendered in French with [items] bound to 3: the output is the singular
    text, after one [gettext] lookup, and [n] is not assigned. *)
Lemma empty_plural_renders_singular_witness :
  BlockTranslateNode.plural (counting_node (Lookup_var "items") []) = Some []
  /\ do_block_translate ["blocktranslate"; "count"; "n=items"] opening empty_plural_block
     = Ok (counting_node (Lookup_var "items") [], [])
  /\ BlockTranslateNode.render (counting_node (Lookup_var "items") []) false
       (world (Some "fr") [("items", VInt 3)])
     = (Ok "one",
        log [Update ∅; Lookup (Some "fr") (Gettext "one"); Pop]
            (world (Some "fr") [("items", VInt 3)])).
Proof.
  split; [reflexivity|]. split; [reflexivity|].
  destruct (PluralFacts.empty_plural_renders_singular
              (catalog := catalog) (engine := engine) (py := py_text)
              (counting_node (Lookup_var "items") []) eq_refl) as (_ & _ & H & _).
  assert (dicts (context (world (Some "fr") [("items", VInt 3)])) <> []) as Hd
    by discriminate.
  rewrite (H false (world (Some "fr") [("items", VInt 3)]) None ∅ "one" [] _ "one"
             eq_refl eq_refl eq_refl eq_refl Hd eq_refl).
  reflexivity.
Defined.

End PluralCases.

(** ** The [translate] tag *)

Module TranslateFacts.
Import PyStr PyDict PyFormat Django Observe ObserveMore TranslateParser.

Section Facts.
Context {engine : TemplateEngine}.

Lemma seen_other (x y : string) (s : gset string) :
  x <> y -> bool_decide (x ∈ ({[ y ]} ∪ s : gset string)) = bool_decide (x ∈ s).
Proof.
  intros H. apply bool_decide_ext.
  rewrite elem_of_union, elem_of_singleton. tauto.
Qed.

Lemma seen_same (x : string) (s : gset string) :
  bool_decide (x ∈ ({[ x ]} ∪ s : gset string)) = true.
Proof.
  apply bool_decide_eq_true_2. apply elem_of_union. left. by apply elem_of_singleton.
Qed.

Lemma budget_noop (s : gset string) :
  "noop" ∉ s -> option_budget ({[ "noop" ]} ∪ s) + 1 = option_budget s.
Proof.
  intros H. unfold option_budget.
  rewrite seen_same, !seen_other by done.
  rewrite (bool_decide_eq_false_2 _ H). lia.
Qed.

Lemma budget_context (s : gset string) :
  "context" ∉ s -> option_budget ({[ "context" ]} ∪ s) + 2 = option_budget s.
Proof.
  intros H. unfold option_budget.
  rewrite seen_same, !seen_other by done.
  rewrite (bool_decide_eq_false_2 _ H). lia.
Qed.

Lemma budget_as (s : gset string) :
  "as" ∉ s -> option_budget ({[ "as" ]} ∪ s) + 2 = option_budget s.
Proof.
  intros H. unfold option_budget.
  rewrite seen_same, !seen_other by done.
  rewrite (bool_decide_eq_false_2 _ H). lia.
Qed.

(** An option loop that succeeds has spent no more bits than the options
    not yet seen allow. *)
Lemma loop_budget tag n : forall remaining l l',
  length remaining <= n ->
  options_loop tag l remaining = Done l' ->
  length remaining <= option_budget (seen l).
Proof.
  induction n as [|n IH]; intros remaining l l' Hn H.
  - destruct remaining; [cbn; lia | cbn in Hn; lia].
  - destruct remaining as [|option rest]; [cbn; lia|].
    cbn [options_loop] in H. case_bool_decide as Hseen; [done|].
    destruct (String.eqb option "noop") eqn:E1.
    { apply String.eqb_eq in E1 as ->. apply IH in H; [|cbn in Hn; lia].
      cbn [seen] in H. pose proof (budget_noop (seen l) Hseen). cbn [length]. lia. }
    destruct (String.eqb option "context") eqn:E2.
    { apply String.eqb_eq in E2 as ->. destruct rest as [|v rest']; [done|].
      case_bool_decide; [done|]. destruct (compile_filter v); [|done].
      apply IH in H; [|cbn in Hn; lia].
      cbn [seen] in H. pose proof (budget_context (seen l) Hseen). cbn [length]. lia. }
    destruct (String.eqb option "as") eqn:E3; [|done].
    apply String.eqb_eq in E3 as ->. destruct rest as [|v rest']; [done|].
    apply IH in H; [|cbn in Hn; lia].
    cbn [seen] in H. pose proof (budget_as (seen l) Hseen). cbn [length]. lia.
Qed.

(** X13: a [translate] tag that parses has the tag name, the message and
    at most five further bits: [noop], [context] with its argument and [as]
    with its argument, each at most once.  The expression of the node is the
    second bit, compiled. *)
Theorem translate_tag_shape bits node :
  do_translate bits = Done node ->
  exists tag message remaining,
    bits = tag :: message :: remaining /\
    compile_filter message = Ok (TranslateNode.filter_expression node) /\
    length remaining <= 5.
Proof.
  unfold do_translate. intros H.
  destruct bits as [|tag [|message remaining]]; [done..|].
  destruct (compile_filter message) as [ms|] eqn:Hc; [|done].
  destruct (options_loop tag initial remaining) as [l| |] eqn:Hl; [|done..].
  inversion H; subst. exists tag, message, remaining.
  split; [done|]. split; [done|].
  by apply (loop_budget tag (length remaining)) in Hl.
Qed.

(** Where the locals of a successful loop come from: the start of the
    loop, or the bits. *)
Lemma loop_provenance tag n : forall remaining l l',
  length remaining <= n ->
  options_loop tag l remaining = Done l' ->
  (noop l' = true -> noop l = true \/ In "noop" remaining) /\
  (forall v, asvar l' = Some v ->
     asvar l = Some v \/ exists pre post, remaining = pre ++ "as" :: v :: post) /\
  (forall e, message_context l' = Some e ->
     message_context l = Some e \/
     exists pre v post,
       remaining = pre ++ "context" :: v :: post /\
       v <> "as" /\ v <> "noop" /\ compile_filter v = Ok e).
Proof.
  induction n as [|n IH]; intros remaining l l' Hn H.
  - destruct remaining; [|cbn in Hn; lia]. inversion H; subst. by repeat split; left.
  - destruct remaining as [|option rest]; [inversion H; subst; by repeat split; left|].
    cbn [options_loop] in H. case_bool_decide as Hseen; [done|].
    destruct (String.eqb option "noop") eqn:E1.
    { apply String.eqb_eq in E1 as ->. apply IH in H as (A & B & C); [|cbn in Hn; lia].
      cbn in A, B, C. split; [|split].
      - intros _. right. by left.
      - intros v Hv. destruct (B v Hv) as [?|(pre & post & ->)]; [by left|].
        right. by exists ("noop" :: pre), post.
      - intros e He. destruct (C e He) as [?|(pre & v & post & -> & ?)]; [by left|].
        right. by exists ("noop" :: pre), v, post. }
    destruct (String.eqb option "context") eqn:E2.
    { apply String.eqb_eq in E2 as ->. destruct rest as [|v rest']; [done|].
      case_bool_decide as Hinv; [done|]. destruct (compile_filter v) as [e0|] eqn:Hc; [|done].
      apply IH in H as (A & B & C); [|cbn in Hn; lia].
      cbn in A, B, C. split; [|split].
      - intros Hn'. destruct (A Hn') as [?|?]; [by left|]. right. by do 2 right.
      - intros x Hx. destruct (B x Hx) as [?|(pre & post & ->)]; [by left|].
        right. by exists ("context" :: v :: pre), post.
      - intros e He. destruct (C e He) as [Heq|(pre & x & post & -> & ?)].
        + inversion Heq; subst. right. exists [], v, rest'.
          split; [done|]. unfold invalid_context in Hinv.
          split; [|split; [|done]]; intros ->; apply Hinv; set_solver.
        + right. by exists ("context" :: v :: pre), x, post. }
    destruct (String.eqb option "as") eqn:E3; [|done].
    apply String.eqb_eq in E3 as ->. destruct rest as [|v rest']; [done|].
    apply IH in H as (A & B & C); [|cbn in Hn; lia].
    cbn in A, B, C. split; [|split].
    + intros Hn'. destruct (A Hn') as [?|?]; [by left|]. right. by do 2 right.
    + intros x Hx. destruct (B x Hx) as [Heq|(pre & post & ->)].
      * inversion Heq; subst. right. by exists [], rest'.
      * right. by exists ("as" :: v :: pre), post.
    + intros e He. destruct (C e He) as [?|(pre & x & post & -> & ?)]; [by left|].
      right. by exists ("as" :: v :: pre), x, post.
Qed.

(** X14: the fields of a parsed [translate] node come from the bits.  The
    node is [noop] only if the word [noop] is among the option bits; its
    [asvar] is the bit that follows an [as]; and its message context is the
    compiled bit that follows a [context], a bit that is neither [as] nor
    [noop]. *)
Theorem translate_node_provenance tag message remaining node :
  do_translate (tag :: message :: remaining) = Done node ->
  (TranslateNode.noop node = true -> In "noop" remaining) /\
  (forall v, TranslateNode.asvar node = Some v ->
     exists pre post, remaining = pre ++ "as" :: v :: post) /\
  (forall e, TranslateNode.message_context node = Some e ->
     exists pre v post,
       remaining = pre ++ "context" :: v :: post /\
       v <> "as" /\ v <> "noop" /\ compile_filter v = Ok e).
Proof.
  unfold do_translate. intros H.
  destruct (compile_filter message) as [ms|]; [|done].
  destruct (options_loop tag initial remaining) as [l| |] eqn:Hl; [|done..].
  inversion H; subst. cbn.
  apply (loop_provenance tag (length remaining)) in Hl as (A & B & C); [|done].
  split; [|split].
  - intros Hn. by destruct (A Hn).
  - intros v Hv. by destruct (B v Hv).
  - intros e He. by destruct (C e He).
Qed.

(** X15: the errors of the option loop of [translate], wherever the loop
    stands.  A word already seen is "specified more than once"; [context]
    and [as] at the end of the bits lack their argument; [context] refuses
    the words [as] and [noop] as its argument, while [as] takes any word as
    the variable name; and a word that is no option is an unknown
    argument. *)
Theorem translate_option_errors tag l :
  (forall option rest,
     option ∈ seen l ->
     options_loop tag l (option :: rest) = Syntax (SpecifiedTwice option))
  /\ ("context" ∉ seen l ->
      options_loop tag l ["context"] = Syntax (NoContextArgument tag))
  /\ ("context" ∉ seen l ->
      forall v rest,
        v = "as" \/ v = "noop" ->
        options_loop tag l ("context" :: v :: rest)
        = Syntax (InvalidContextArgument v tag))
  /\ ("as" ∉ seen l ->
      options_loop tag l ["as"] = Syntax (NoAsArgument tag))
  /\ ("as" ∉ seen l ->
      forall v rest,
        options_loop tag l ("as" :: v :: rest)
        = options_loop tag {| noop := noop l; asvar := Some v;
                              message_context := message_context l;
                              seen := {[ "as" ]} ∪ seen l |} rest)
  /\ (forall option rest,
        option ∉ seen l ->
        option <> "noop" -> option <> "context" -> option <> "as" ->
        options_loop tag l (option :: rest)
        = Syntax (UnknownTranslateArgument tag option)).
Proof.
  repeat split.
  - intros option rest H. cbn [options_loop]. by rewrite bool_decide_eq_true_2.
  - intros H. cbn [options_loop]. by rewrite bool_decide_eq_false_2.
  - intros H v rest Hv. cbn [options_loop]. rewrite bool_decide_eq_false_2 by done.
    cbn. rewrite bool_decide_eq_true_2; [done|].
    unfold invalid_context. destruct Hv as [->| ->]; set_solver.
  - intros H. cbn [options_loop]. by rewrite bool_decide_eq_false_2.
  - intros H v rest. cbn [options_loop]. by rewrite bool_decide_eq_false_2.
  - intros option rest H H1 H2 H3. cbn [options_loop].
    rewrite bool_decide_eq_false_2 by done.
    apply String.eqb_neq in H1, H2, H3. by rewrite H1, H2, H3.
Qed.

(** X16: [translate ... as name].  When the message context and the
    expression resolve, the tag emits nothing and assigns to [name], in the
    top scope of the context, the rendered value with its doubled percent
    signs restored and its safe mark kept; a lookup of [name] then gives
    that value, and every other name resolves as before. *)
Theorem translate_as_binds (self : TranslateNode.t) w output name :
  match TranslateNode.message_context self with
  | Some e =>
      exists v, resolve e (context w) = Ok v /\
        resolve_translated (TranslateNode.filter_expression self)
          (negb (TranslateNode.noop self)) (Some v) (context w) (active w) = Ok output
  | None =>
      resolve_translated (TranslateNode.filter_expression self)
        (negb (TranslateNode.noop self)) None (context w) (active w) = Ok output
  end ->
  TranslateNode.asvar self = Some name ->
  name <> EmptyString ->
  dicts (context w) <> [] ->
  let rendered := render_value_in_context output (context w) in
  let bound := value_of_text {| chars := replace "%%" "%" (chars rendered);
                                is_safe := is_safe rendered |} in
  TranslateNode.render self w = (Ok EmptyString, assigned name bound w)
  /\ stack_get (dicts (context (assigned name bound w))) name = Some bound
  /\ (forall key, key <> name ->
        stack_get (dicts (context (assigned name bound w))) key
        = stack_get (dicts (context w)) key)
  /\ length (dicts (context (assigned name bound w))) = length (dicts (context w)).
Proof.
  intros H Ha Hn Hd rendered bound.
  rewrite (PercentFacts.translate_render_run self w output H), Ha.
  apply String.eqb_neq in Hn. rewrite Hn.
  destruct (dicts (context w)) as [|top below] eqn:E; [done|].
  split; [done|]. unfold assigned. cbn. rewrite E. cbn.
  split; [by rewrite lookup_insert_eq|]. split; [|done].
  intros key Hk. by rewrite lookup_insert_ne.
Qed.

End Facts.

End TranslateFacts.

(** ** Cases of the further properties *)

Module MoreCases.
Import PyStr PyDict PyFormat Django Parser Observe ObserveMore Example ExampleMore.

(** X1 at [count n=items trimmed]. *)
Lemma options_stored_once_witness :
  parse_options_from "blocktranslate" no_options ["count"; "n=items"; "trimmed"]
  = Ok (set_trimmed (set_count no_options [("n", Lookup_var "items")]) true)
  /\ extends_options no_options
       (set_trimmed (set_count no_options [("n", Lookup_var "items")]) true)
  /\ known_option "count" = true.
Proof.
  split; [reflexivity|].
  destruct (ParserMore.options_stored_once (engine := engine)
              "blocktranslate" no_options ["count"; "n=items"; "trimmed"]
              _ eq_refl) as [H1 H2].
  split; [exact H1|].
  exact (proj1 (H2 "count" ["n=items"; "trimmed"] eq_refl)).
Defined.

(** X4 at [{% blocktranslate count n=items %}one{% plural %}many{% endblocktranslate %}]. *)
Lemma parsed_node_invariant_witness :
  do_block_translate ["blocktranslate"; "count"; "n=items"] opening plural_block
  = Ok (counting_node (Lookup_var "items") [text_token "many"], [])
  /\ exists pl,
       hd_error ["blocktranslate"; "count"; "n=items"] = Some "blocktranslate" /\
       Some [text_token "many"] = Some pl /\
       Forall (fun t => is_body_token t = true) [text_token "one"] /\
       Forall (fun t => is_body_token t = true) pl /\
       ((Some "n" : option string) = None <-> Some (Lookup_var "items") = None) /\
       (pl <> [] -> counts (Some "n") (Some (Lookup_var "items")) = true).
Proof.
  split; [reflexivity|].
  exact (ParserMore.parsed_node_invariant (engine := engine)
           ["blocktranslate"; "count"; "n=items"] opening plural_block
           (counting_node (Lookup_var "items") [text_token "many"]) [] eq_refl).
Defined.

(** X5 at the same block followed by the text [after]. *)
Lemma parse_consumes_prefix_witness :
  exists consumed pl,
    plural_block ++ [text_token "after"] = consumed ++ [text_token "after"] /\
    Some [text_token "many"] = Some pl /\
    List.filter is_body_token consumed = [text_token "one"] ++ pl.
Proof.
  exact (ParserMore.parse_consumes_prefix (engine := engine)
           ["blocktranslate"; "count"; "n=items"] opening
           (plural_block ++ [text_token "after"])
           (counting_node (Lookup_var "items") [text_token "many"])
           [text_token "after"] eq_refl).
Defined.

(** X6 at a block without options whose stream ends on the text
    [endblocktranslate]: the parse succeeds, the text in the body. *)
Lemma stream_ends_in_singular_body_witness :
  do_block_translate ["blocktranslate"] opening unclosed_block
  = Ok (make_node "blocktranslate" no_options (None, None) unclosed_block [], []).
Proof.
  assert (Forall (fun t => is_body_token t = true) unclosed_block) as F
    by (repeat constructor).
  exact (ParserMore.stream_ends_in_singular_body (engine := engine)
           "blocktranslate" [] opening unclosed_block no_options (None, None)
           eq_refl eq_refl F).
Defined.

(** X8 at a counting block whose counter names a variable the context does
    not hold, in the strict engine. *)
Lemma failed_counter_leaves_scope_witness :
  BlockTranslateNode.render (engine := strict_engine) (catalog := catalog)
    strict_counting_node false (ann (Some "fr"))
  = (Raise (Raised "filter"), inside ∅ [Update ∅] (ann (Some "fr")))
  /\ length (dicts (context (inside ∅ [Update ∅] (ann (Some "fr"))))) = 3.
Proof.
  exact (RenderMore.failed_counter_leaves_scope
           (engine := strict_engine) (catalog := catalog) (py := py_text)
           strict_counting_node (ann (Some "fr")) None ∅
           [text_token "many"] "n" (Lookup_var "items") (Raised "filter")
           eq_refl eq_refl eq_refl eq_refl false).
Defined.

(** X9 at [Hello {{ name }}] rendered in German, where the catalog entry
    asks for a number. *)
Lemma type_error_is_not_retried_witness :
  (BlockTranslateNode.render (catalog := german_catalog) (hello_node None) false
     (ann (Some "de"))).1
  = Raise TypeError.
Proof.
  assert (BlockTranslateNode.lookup_message (catalog := german_catalog)
            (hello_node None) (ann (Some "de"))
          = (Ok ("Hallo %(name)d", [("name", "Ann")]),
             log [Update ∅; Lookup (Some "de") (Gettext "Hello %(name)s"); Pop]
                 (ann (Some "de")))) as H1 by (vm_compute; reflexivity).
  destruct (RenderMore.type_error_is_not_retried
              (catalog := german_catalog) (engine := engine) (py := py_text)
              (hello_node None) (ann (Some "de")) _ _ _ H1 eq_refl false) as [H _].
  rewrite H. reflexivity.
Defined.

(** X12 at [Hello {{ name }}] rendered with no language active. *)
Lemma untranslated_render_witness :
  BlockTranslateNode.render (hello_node None) false (ann None)
  = (Ok "Hello Ann",
     log [Update ∅; Lookup None (Gettext "Hello %(name)s"); Pop] (ann None)).
Proof.
  assert (dicts (context (ann None)) <> []) as Hd by discriminate.
  assert (BlockTranslateNode.render_values ["name"] []
            (inside ∅ [Update ∅; Lookup None (Gettext "Hello %(name)s")] (ann None))
          = (Ok [("name", "Ann")],
             inside ∅ [Update ∅; Lookup None (Gettext "Hello %(name)s")] (ann None)))
    as Hv by (vm_compute; reflexivity).
  destruct (RenderMore.untranslated_render
              (catalog := catalog) (engine := engine) (py := py_text)
              (hello_node None) (ann None) ∅ [("name", "Ann")] _
              eq_refl eq_refl eq_refl eq_refl Hd eq_refl eq_refl eq_refl Hv false)
    as [H _].
  rewrite H. reflexivity.
Defined.

(** X13 at [{% translate "hi" noop as noop context greeting %}]: five
    option bits, the most a tag can have. *)
Lemma translate_tag_shape_witness :
  exists tag message remaining,
    translate_bits = tag :: message :: remaining /\
    compile_filter message = Ok (Constant (VSafe "hi")) /\
    length remaining <= 5.
Proof.
  exact (TranslateFacts.translate_tag_shape (engine := engine) translate_bits
           translate_node
           eq_refl).
Defined.

(** X14 at the same tag: the variable is the word after [as], here the
    word [noop]. *)
Lemma translate_node_provenance_witness :
  exists pre post,
    ["noop"; "as"; "noop"; "context"; "greeting"] = pre ++ "as" :: "noop" :: post.
Proof.
  destruct (TranslateFacts.translate_node_provenance (engine := engine)
              "translate" (String quote (String.append "hi" (String quote EmptyString)))
              ["noop"; "as"; "noop"; "context"; "greeting"]
              translate_node
              eq_refl) as (_ & H & _).
  exact (H "noop" eq_refl).
Defined.

(** X16 at [{% translate "100%%" as rate %}]. *)
Lemma translate_as_binds_witness :
  (TranslateNode.render rate_node (ann (Some "fr"))).1 = Ok EmptyString
  /\ stack_get (dicts (context (TranslateNode.render rate_node (ann (Some "fr"))).2))
       "rate" = Some (VSafe "100%")
  /\ stack_get (dicts (context (TranslateNode.render rate_node (ann (Some "fr"))).2))
       "name" = Some (VStr "Ann").
Proof.
  assert ("rate" <> EmptyString) as Hn by discriminate.
  assert (dicts (context (ann (Some "fr"))) <> []) as Hd by discriminate.
  destruct (TranslateFacts.translate_as_binds (engine := engine)
              rate_node (ann (Some "fr")) (VSafe "100%%") "rate"
              eq_refl eq_refl Hn Hd) as (H & H1 & H2 & _).
  rewrite H. cbn [fst snd]. split; [reflexivity|]. split; [exact H1|].
  rewrite (H2 "name") by discriminate. vm_compute. reflexivity.
Defined.

(** X17 at [Hello {{ name }}] with [asvar greeting] rendered in English. *)
Lemma first_attempt_delivers_witness :
  BlockTranslateNode.render (hello_node (Some "greeting")) false (ann (Some "en"))
  = (Ok EmptyString,
     assigned "greeting" (VStr "Hello Ann")
       (log [Update ∅; Lookup (Some "en") (Gettext "Hello %(name)s"); Pop]
            (ann (Some "en")))).
Proof.
  assert (BlockTranslateNode.lookup_message (hello_node (Some "greeting"))
            (ann (Some "en"))
          = (Ok ("Hello %(name)s", [("name", "Ann")]),
             log [Update ∅; Lookup (Some "en") (Gettext "Hello %(name)s"); Pop]
                 (ann (Some "en")))) as H1 by (vm_compute; reflexivity).
  assert (py_format "Hello %(name)s" (ArgDict [("name", "Ann")]) = FmtOk "Hello Ann")
    as Hf by (vm_compute; reflexivity).
  rewrite (RenderFacts.first_attempt_delivers (hello_node (Some "greeting"))
             (ann (Some "en")) _ _ _ _ H1 Hf).
  reflexivity.
Defined.

(** X18 at the same block rendered in French, where the catalog entry
    names a placeholder that is not in the data. *)
Lemma retry_empties_asvar_witness :
  (BlockTranslateNode.render (hello_node (Some "greeting")) false (ann (Some "fr"))).1
  = Ok EmptyString
  /\ stack_get
       (dicts (context (BlockTranslateNode.render (hello_node (Some "greeting")) false
                          (ann (Some "fr"))).2))
       "greeting"
     = Some (VStr EmptyString).
Proof.
  assert (BlockTranslateNode.lookup_message (hello_node (Some "greeting"))
            (ann (Some "fr"))
          = (Ok ("Bonjour %(nom)s", [("name", "Ann")]),
             log [Update ∅; Lookup (Some "fr") (Gettext "Hello %(name)s"); Pop]
                 (ann (Some "fr")))) as H1 by (vm_compute; reflexivity).
  assert (BlockTranslateNode.lookup_message (hello_node (Some "greeting"))
            (enter_override None
               (log [Update ∅; Lookup (Some "fr") (Gettext "Hello %(name)s"); Pop]
                    (ann (Some "fr"))))
          = (Ok ("Hello %(name)s", [("name", "Ann")]),
             log [Update ∅; Lookup None (Gettext "Hello %(name)s"); Pop]
               (enter_override None
                  (log [Update ∅; Lookup (Some "fr") (Gettext "Hello %(name)s"); Pop]
                       (ann (Some "fr"))))))
    as H2 by (vm_compute; reflexivity).
  assert (py_format "Hello %(name)s" (ArgDict [("name", "Ann")]) = FmtOk "Hello Ann")
    as Hf by (vm_compute; reflexivity).
  rewrite (RenderFacts.retry_empties_asvar (hello_node (Some "greeting"))
             (ann (Some "fr")) _ _ _ _ _ _ _ "greeting" H1 eq_refl H2 Hf eq_refl).
  split; [reflexivity|]. vm_compute. reflexivity.
Defined.

End MoreCases.
